(** * cbnuchat: the keyword store, search, suggestion and ranking engine

    A shallow embedding of [cbnuchatbot.py].  The program keeps one SQLite
    table, [resources(id, keyword UNIQUE NOT NULL, url NOT NULL,
    count DEFAULT 0, tag DEFAULT '')], and every function opens a
    connection, runs one statement inside [try/except], prints and returns.

    The embedding has three layers:
    - [Py]: Python text ([str] as a sequence of code points) and [str.strip];
    - [Sqlite]: the table and the statements the program sends to the engine,
      with the engine's [LIKE] operator;
    - [Difflib]: [SequenceMatcher.ratio] and [get_close_matches];
    and on top of them the functions of the program, under their own names. *)

From Stdlib Require Import String Ascii.
From Stdlib Require Import List ZArith Bool Lia QArith Lqa.
From Stdlib Require Import Permutation Sorted.
Import ListNotations.
Open Scope Z_scope.

(* ------------------------------------------------------------------ *)
(** * Python text *)
(* ------------------------------------------------------------------ *)

Module Py.

(** A Python [str] is a sequence of Unicode code points. *)
Definition str := list Z.

(** Decoding of the UTF-8 bytes of a literal of this file, so that the
    keywords can be written as they are in the source. *)
Fixpoint utf8_decode (bs : list Z) : str :=
  match bs with
  | [] => []
  | b0 :: r0 =>
    if b0 <? 128 then b0 :: utf8_decode r0
    else
      match r0 with
      | [] => []
      | b1 :: r1 =>
        if b0 <? 224 then ((b0 - 192) * 64 + (b1 - 128)) :: utf8_decode r1
        else
          match r1 with
          | [] => []
          | b2 :: r2 =>
            if b0 <? 240
            then ((b0 - 224) * 4096 + (b1 - 128) * 64 + (b2 - 128))
                   :: utf8_decode r2
            else
              match r2 with
              | [] => []
              | b3 :: r3 =>
                ((b0 - 240) * 262144 + (b1 - 128) * 4096
                 + (b2 - 128) * 64 + (b3 - 128)) :: utf8_decode r3
              end
          end
      end
  end.

Definition lit (s : string) : str :=
  utf8_decode (map (fun a => Z.of_nat (nat_of_ascii a)) (list_ascii_of_string s)).

(** [str.isspace] on one character: the white space of the Unicode
    character database, which [str.strip()] removes. *)
Definition isspace (c : Z) : bool :=
  ((9 <=? c) && (c <=? 13)) || ((28 <=? c) && (c <=? 32))
  || (c =? 133) || (c =? 160) || (c =? 5760)
  || ((8192 <=? c) && (c <=? 8202))
  || (c =? 8232) || (c =? 8233) || (c =? 8239) || (c =? 8287) || (c =? 12288).

Fixpoint lstrip (s : str) : str :=
  match s with
  | [] => []
  | c :: s' => if isspace c then lstrip s' else s
  end.

Definition rstrip (s : str) : str := rev (lstrip (rev s)).

(** [s.strip()] *)
Definition strip (s : str) : str := rstrip (lstrip s).

(** [a == b] on [str] *)
Fixpoint str_eqb (a b : str) : bool :=
  match a, b with
  | [], [] => true
  | x :: a', y :: b' => (x =? y) && str_eqb a' b'
  | _, _ => false
  end.

(** [a < b] on [str]: lexicographic on code points. *)
Fixpoint str_ltb (a b : str) : bool :=
  match a, b with
  | _, [] => false
  | [], _ :: _ => true
  | x :: a', y :: b' => (x <? y) || ((x =? y) && str_ltb a' b')
  end.

(** A code point that UTF-8 can encode: a Unicode scalar value.  A lone
    surrogate makes the encoder raise [UnicodeEncodeError]. *)
Definition is_scalar (c : Z) : bool :=
  (0 <=? c) && (c <=? 1114111) && negb ((55296 <=? c) && (c <=? 57343)).

Definition encodable (s : str) : bool := forallb is_scalar s.

(** Number of bytes of the UTF-8 encoding. *)
Definition utf8_width (c : Z) : Z :=
  if c <? 128 then 1 else if c <? 2048 then 2 else if c <? 65536 then 3 else 4.

Definition utf8_len (s : str) : Z :=
  fold_right (fun c n => utf8_width c + n) 0 s.

End Py.
Import Py.

(* ------------------------------------------------------------------ *)
(** * The storage engine *)
(* ------------------------------------------------------------------ *)

Module Sqlite.

(** One row of [resources].  The [id] column is the row id, assigned in
    increasing order: it is kept as the position of the row in the table,
    which is the order in which a scan of the table visits the rows.
    [count] is the number that the column holds: a 64-bit INTEGER, or,
    outside the range of INTEGER, the REAL that [add_one] leaves at 2^63. *)
Record Row := mkRow {
  keyword : str;
  url : str;
  count : Z;
  tag : str
}.

Definition Table := list Row.

(** The database file: [None] when it holds no table [resources] (a file
    that [init_db] has not initialised), [Some t] otherwise. *)
Definition Db := option Table.

(** What [cursor.execute] raises. *)
Inductive SqlError :=
| OperationalError   (* no such table; LIKE or GLOB pattern too complex *)
| IntegrityError     (* UNIQUE constraint failed: resources.keyword *)
| EncodeError.       (* a parameter that cannot be encoded as UTF-8 *)

Definition result (A : Type) := (SqlError + A)%type.

(** ** LIKE *)

Definition pct : Z := 37.   (* % *)
Definition und : Z := 95.   (* _ *)

Definition tolower (c : Z) : Z :=
  if (65 <=? c) && (c <=? 90) then c + 32 else c.

(** The engine's reader of one character of a text: the noncharacters
    U+FFFE and U+FFFF come out as U+FFFD (so do surrogates and overlong
    forms, which the encoded texts of the table and of the pattern do not
    hold). *)
Definition utf8_read (c : Z) : Z :=
  if (c =? 65534) || (c =? 65535) then 65533 else c.

(** Two characters, as the engine reads them, match when they are equal,
    or when both are ASCII and equal once folded to lower case. *)
Definition like_char (c c2 : Z) : bool :=
  let r := utf8_read c in
  let r2 := utf8_read c2 in
  (r =? r2) || ((r <? 128) && (r2 <? 128) && (tolower r =? tolower r2)).

(** The engine's pattern comparison with [%] for any run of characters and
    [_] for any one character, no escape character. *)
Fixpoint patternCompare (zPattern zString : str) : bool :=
  match zPattern with
  | [] => match zString with [] => true | _ :: _ => false end
  | c :: zPattern' =>
    if c =? pct then
      (fix skip (s : str) : bool :=
         patternCompare zPattern' s
         || match s with [] => false | _ :: s' => skip s' end) zString
    else
      match zString with
      | [] => false
      | c2 :: zString' =>
        ((c =? und) || like_char c c2) && patternCompare zPattern' zString'
      end
  end.

(** The engine reads both operands of [LIKE] as C strings: up to the first
    NUL character. *)
Fixpoint cstr (s : str) : str :=
  match s with
  | [] => []
  | c :: s' => if c =? 0 then [] else c :: cstr s'
  end.

(** SQLITE_MAX_LIKE_PATTERN_LENGTH, in bytes. *)
Definition like_limit : Z := 50000.

(** [X LIKE P] for one row: an error when the pattern is longer than the limit. *)
Definition like (P X : str) : result bool :=
  if like_limit <? utf8_len P then inl OperationalError
  else inr (patternCompare (cstr P) (cstr X)).

(** ** The statements of the program *)

(** [DROP TABLE IF EXISTS resources] then [CREATE TABLE resources (...)] *)
Definition drop_and_create (db : Db) : Db := Some [].

Definition has_keyword (kw : str) (t : Table) : bool :=
  existsb (fun r => str_eqb (keyword r) kw) t.

(** [INSERT OR IGNORE INTO resources(keyword, url) VALUES (?, ?)] on an
    existing table: the row is appended with the column defaults unless the
    keyword is there. *)
Definition insert_or_ignore (kw u : str) (t : Table) : Table :=
  if has_keyword kw t then t else t ++ [mkRow kw u 0 []].

(** [cursor.executemany] of that statement: the parameters are bound and
    the statement run pair after pair; a pair that cannot be bound raises. *)
Fixpoint executemany_insert_or_ignore (params : list (str * str)) (t : Table)
  : result Table :=
  match params with
  | [] => inr t
  | (kw, u) :: rest =>
    if encodable kw && encodable u
    then executemany_insert_or_ignore rest (insert_or_ignore kw u t)
    else inl EncodeError
  end.

(** [INSERT INTO resources(keyword, url) VALUES(?, ?)] *)
Definition insert (kw u : str) (db : Db) : result Db :=
  match db with
  | None => inl OperationalError
  | Some t =>
    if negb (encodable kw && encodable u) then inl EncodeError
    else if has_keyword kw t then inl IntegrityError
    else inr (Some (t ++ [mkRow kw u 0 []]))
  end.

(** [SELECT keyword, url FROM resources WHERE keyword LIKE ?] : a scan of
    the table; the first row on which [LIKE] fails aborts the statement. *)
Fixpoint scan_like (P : str) (t : Table) : result (list (str * str)) :=
  match t with
  | [] => inr []
  | r :: t' =>
    match like P (keyword r) with
    | inl e => inl e
    | inr b =>
      match scan_like P t' with
      | inl e => inl e
      | inr rows => inr (if b then (keyword r, url r) :: rows else rows)
      end
    end
  end.

Definition select_like (P : str) (db : Db) : result (list (str * str)) :=
  match db with
  | None => inl OperationalError
  | Some t => if encodable P then scan_like P t else inl EncodeError
  end.

(** [count + 1] in the engine.  On a 64-bit INTEGER the sum is exact (from
    2^63 - 1 it is the REAL 2^63); a value outside the range of INTEGER is
    a REAL so large that adding 1 leaves it as it is. *)
Definition add_one (c : Z) : Z :=
  if (- 2 ^ 63 <=? c) && (c <? 2 ^ 63) then c + 1 else c.

Definition bump (r : Row) : Row :=
  mkRow (keyword r) (url r) (add_one (count r)) (tag r).

Definition bump_where (kw : str) (t : Table) : Table :=
  map (fun r => if str_eqb (keyword r) kw then bump r else r) t.

(** [UPDATE resources SET count = count + 1 WHERE keyword = ?] *)
Definition update_count_where (kw : str) (db : Db) : result Db :=
  match db with
  | None => inl OperationalError
  | Some t =>
    if encodable kw then inr (Some (bump_where kw t)) else inl EncodeError
  end.

Definition retag (tg : str) (r : Row) : Row :=
  mkRow (keyword r) (url r) (count r) tg.

(** [UPDATE resources SET tag = ? WHERE keyword = ?], with [cursor.rowcount]. *)
Definition update_tag_where (tg kw : str) (db : Db) : result (Db * nat) :=
  match db with
  | None => inl OperationalError
  | Some t =>
    if encodable tg && encodable kw
    then inr (Some (map (fun r => if str_eqb (keyword r) kw then retag tg r else r) t),
              length (filter (fun r => str_eqb (keyword r) kw) t))
    else inl EncodeError
  end.

(** [DELETE FROM resources WHERE keyword = ?], with [cursor.rowcount]. *)
Definition delete_where (kw : str) (db : Db) : result (Db * nat) :=
  match db with
  | None => inl OperationalError
  | Some t =>
    if encodable kw
    then inr (Some (filter (fun r => negb (str_eqb (keyword r) kw)) t),
              length (filter (fun r => str_eqb (keyword r) kw) t))
    else inl EncodeError
  end.

(** [SELECT keyword, url, count, tag FROM resources] *)
Definition select_all (db : Db) : result (list (str * str * Z * str)) :=
  match db with
  | None => inl OperationalError
  | Some t => inr (map (fun r => (keyword r, url r, count r, tag r)) t)
  end.

(** [SELECT keyword FROM resources]: the engine answers this one from the
    index of the UNIQUE column, which holds the keywords in increasing
    order of their bytes, that is, of their code points. *)
Fixpoint place_asc (k : str) (sorted : list str) : list str :=
  match sorted with
  | [] => [k]
  | x :: xs => if str_ltb k x then k :: x :: xs else x :: place_asc k xs
  end.

Definition index_order (ks : list str) : list str :=
  fold_right place_asc [] ks.

Definition select_keywords (db : Db) : result (list str) :=
  match db with
  | None => inl OperationalError
  | Some t => inr (index_order (map keyword t))
  end.

(** [SELECT keyword, url FROM resources WHERE tag = ?] *)
Definition select_by_tag (tg : str) (db : Db) : result (list (str * str)) :=
  match db with
  | None => inl OperationalError
  | Some t =>
    if encodable tg
    then inr (map (fun r => (keyword r, url r))
                  (filter (fun r => str_eqb (tag r) tg) t))
    else inl EncodeError
  end.

(** [ORDER BY count DESC]: the sorter keeps rows of equal count in the
    order of the scan. *)
Fixpoint place_desc (r : Row) (sorted : list Row) : list Row :=
  match sorted with
  | [] => [r]
  | x :: xs => if count x <? count r then r :: x :: xs else x :: place_desc r xs
  end.

Definition order_by_count_desc (t : Table) : list Row :=
  fold_left (fun acc r => place_desc r acc) t [].

(** [SELECT keyword, count FROM resources ORDER BY count DESC LIMIT n] *)
Definition select_top (n : nat) (db : Db) : result (list (str * Z)) :=
  match db with
  | None => inl OperationalError
  | Some t => inr (map (fun r => (keyword r, count r))
                       (firstn n (order_by_count_desc t)))
  end.

End Sqlite.
Import Sqlite.

(* ------------------------------------------------------------------ *)
(** * difflib *)
(* ------------------------------------------------------------------ *)

Module Difflib.

(** [SequenceMatcher(None, a, b)] with [autojunk] on.  Throughout, [a] is
    the first sequence and [b] the second.

    The ratio is the float [2.0 * matches / length]; it is kept here as the
    rational with that numerator and denominator.  Two such floats compare
    as the rationals do as long as the two lengths stay below [2^26]. *)

(** [__chain_b]: when [b] has 200 elements or more, an element that occurs
    more than [len(b) // 100 + 1] times is popular and is left out of
    [b2j].  No element is junk ([isjunk] is [None]). *)
Definition popular (b : str) (c : Z) : bool :=
  (200 <=? length b)%nat
  && (length b / 100 + 1 <? count_occ Z.eq_dec b c)%nat.

Definition Match := (nat * nat * nat)%type.   (* (i, j, size) *)

Definition size_of (m : Match) : nat := snd m.

(** One pass of the inner loop of [find_longest_match], for the element
    [ai] at index [i] of [a]: [j] runs over the indices of [b] in increasing
    order, [bs] is [b] from index [j] on, [prev] is the old [j2len] from
    index [j] on, [before] is the old [j2len[j-1]] (0 when absent).
    Returns the new [j2len] and the best match so far. *)
Fixpoint scan_b (pop : Z -> bool) (ai : Z) (i j : nat) (bs : str)
         (before : nat) (prev : list nat) (best : Match) : list nat * Match :=
  match bs with
  | [] => ([], best)
  | bj :: bs' =>
    let here := hd 0%nat prev in
    if (bj =? ai) && negb (pop bj) then
      let k := S before in
      let best' := if (size_of best <? k)%nat
                   then (S i - k, S j - k, k)%nat else best in
      let '(row, best'') := scan_b pop ai i (S j) bs' here (tl prev) best' in
      (k :: row, best'')
    else
      let '(row, best'') := scan_b pop ai i (S j) bs' here (tl prev) best in
      (0%nat :: row, best'')
  end.

(** The outer loop, over the elements of [a] from index [i] on. *)
Fixpoint scan_a (pop : Z -> bool) (i : nat) (as_ : str) (b : str)
         (j2len : list nat) (best : Match) : Match :=
  match as_ with
  | [] => best
  | ai :: as' =>
    let '(newj2len, best') := scan_b pop ai i 0 b 0 j2len best in
    scan_a pop (S i) as' b newj2len best'
  end.

Fixpoint common_prefix (x y : str) : nat :=
  match x, y with
  | cx :: x', cy :: y' => if cx =? cy then S (common_prefix x' y') else 0%nat
  | _, _ => 0%nat
  end.

(** The two loops that extend the best match by equal elements on each
    side (the two loops that follow them extend by junk, and there is
    none). *)
Definition extend (a b : str) (m : Match) : Match :=
  let '(i, j, k) := m in
  let back := common_prefix (rev (firstn i a)) (rev (firstn j b)) in
  let i1 := (i - back)%nat in
  let j1 := (j - back)%nat in
  let k1 := (k + back)%nat in
  let fwd := common_prefix (skipn (i1 + k1) a) (skipn (j1 + k1) b) in
  (i1, j1, (k1 + fwd)%nat).

(** [find_longest_match(alo, ahi, blo, bhi)], on the slices [a[alo:ahi]]
    and [b[blo:bhi]] and with indices relative to them. *)
Definition find_longest_match (pop : Z -> bool) (a b : str) : Match :=
  extend a b (scan_a pop 0 a b [] (0, 0, 0)%nat).

(** The sum of the sizes of [get_matching_blocks()]: the longest match of
    the two slices, then the blocks to its left and to its right.  Each
    recursive call is on a strictly shorter slice of [a]. *)
Fixpoint matching_size (fuel : nat) (pop : Z -> bool) (a b : str) : nat :=
  match fuel with
  | O => 0
  | S fuel' =>
    let '(i, j, k) := find_longest_match pop a b in
    if (k =? 0)%nat then 0%nat
    else
      (k
       + (if (0 <? i) && (0 <? j)
          then matching_size fuel' pop (firstn i a) (firstn j b) else 0)
       + (if (i + k <? length a) && (j + k <? length b)
          then matching_size fuel' pop (skipn (i + k) a) (skipn (j + k) b)
          else 0))%nat
  end.

(** [_calculate_ratio(matches, length)] *)
Definition calculate_ratio (matches length : nat) : Q :=
  match length with
  | O => 1
  | S _ => Qmake (2 * Z.of_nat matches) (Pos.of_nat length)
  end.

(** [ratio()] *)
Definition ratio (a b : str) : Q :=
  calculate_ratio (matching_size (S (length a)) (popular b) a b)
                  (length a + length b).

Fixpoint remove_first (c : Z) (b : str) : option str :=
  match b with
  | [] => None
  | x :: b' =>
    if x =? c then Some b'
    else match remove_first c b' with
         | Some r => Some (x :: r)
         | None => None
         end
  end.

(** The number of elements of [a] that find a partner of their own in [b]. *)
Fixpoint quick_matches (a b : str) : nat :=
  match a with
  | [] => 0
  | c :: a' =>
    match remove_first c b with
    | Some b' => S (quick_matches a' b')
    | None => quick_matches a' b
    end
  end.

(** [quick_ratio()] *)
Definition quick_ratio (a b : str) : Q :=
  calculate_ratio (quick_matches a b) (length a + length b).

(** [real_quick_ratio()] *)
Definition real_quick_ratio (a b : str) : Q :=
  calculate_ratio (Nat.min (length a) (length b)) (length a + length b).

Definition Scored := (Q * str)%type.

(** [t1 < t2] on the tuples [(score, x)]: the scores decide unless they are
    equal, then the strings. *)
Definition scored_ltb (t1 t2 : Scored) : bool :=
  if Qeq_bool (fst t1) (fst t2) then str_ltb (snd t1) (snd t2)
  else negb (Qle_bool (fst t2) (fst t1)).

Fixpoint place (e : Scored) (sorted : list Scored) : list Scored :=
  match sorted with
  | [] => [e]
  | x :: xs => if scored_ltb x e then e :: x :: xs else x :: place e xs
  end.

(** [sorted(result, reverse=True)]: descending, equal tuples in the order
    they came. *)
Definition sorted_reverse (l : list Scored) : list Scored :=
  fold_left (fun acc e => place e acc) l [].

(** [heapq.nlargest(n, result)], which is [sorted(result, reverse=True)[:n]]. *)
Definition nlargest (n : nat) (l : list Scored) : list Scored :=
  firstn n (sorted_reverse l).

(** The loop of [get_close_matches] that collects [(s.ratio(), x)]. *)
Fixpoint close_candidates (word : str) (possibilities : list str) (cutoff : Q)
  : list Scored :=
  match possibilities with
  | [] => []
  | x :: rest =>
    if Qle_bool cutoff (real_quick_ratio x word)
       && Qle_bool cutoff (quick_ratio x word)
       && Qle_bool cutoff (ratio x word)
    then (ratio x word, x) :: close_candidates word rest cutoff
    else close_candidates word rest cutoff
  end.

(** [get_close_matches(word, possibilities, n, cutoff)], for [n > 0] and
    [0 <= cutoff <= 1] (other arguments raise [ValueError]). *)
Definition get_close_matches (word : str) (possibilities : list str)
           (n : nat) (cutoff : Q) : list str :=
  map snd (nlargest n (close_candidates word possibilities cutoff)).

End Difflib.
Import Difflib.


(* ------------------------------------------------------------------ *)
(** * The program *)
(* ------------------------------------------------------------------ *)

(** What a run shows to the outside: the lines it prints, the pages it
    opens, the lines it appends to the history file, the list box. *)
Inductive Message :=
| SearchError                       (* 검색 조회 오류 *)
| CountError                        (* 조회수 업데이트 오류 *)
| TopError                          (* 인기 키워드 조회 오류 *)
| KeysError                         (* 키워드 목록 조회 오류 *)
| AddOk (kw : str)                  (* 키워드를 성공적으로 추가했습니다 *)
| AddDuplicate (kw : str)           (* 키워드가 이미 존재합니다 *)
| AddError                          (* DB 오류 발생 *)
| DeleteOk (kw : str)
| DeleteMissing (kw : str)
| DeleteError
| ListError
| ListEmpty
| ListHeader
| ListLine (kw u : str) (cnt : Z) (tg : str)
| TagOk (kw tg : str)
| TagMissing (kw : str)
| TagError
| CatError
| CatEmpty (tg : str)
| CatHeader (tg : str)
| CatLine (kw u : str)
| TopEmpty                          (* 인기 키워드가 없습니다 *)
| TopHeader
| TopLine (idx : nat) (kw : str) (cnt : Z)
| Found (kw u : str)                (* [kw] url *)
| DidYouMean (l : list str).

Inductive Event :=
| Print (m : Message)
| Browser (u : str)                 (* webbrowser.open(url) *)
| History (q : str)                 (* a line of search_history.txt *)
| ListboxClear
| ListboxMatch (kw u : str)
| ListboxSuggestHeader
| ListboxSuggestion (kw : str).

Definition initial_data : list (str * str) :=
  [ (lit "장학금",     lit "https://www.cbnu.ac.kr/www/contents.do?key=492");
    (lit "학사일정",   lit "https://www.cbnu.ac.kr/www/selectWebSchdulList.do?key=455&schdulSeNo=1");
    (lit "수강신청",   lit "https://eisa.cbnu.ac.kr/");
    (lit "도서관",     lit "https://cbnul.chungbuk.ac.kr/");
    (lit "셔틀버스",   lit "https://www.cbnu.ac.kr/www/contents.do?key=648");
    (lit "기숙사",     lit "https://cia.cbnu.ac.kr/");
    (lit "취업지원",   lit "https://hrd.cbnu.ac.kr/");
    (lit "등록금",     lit "https://www.cbnu.ac.kr/www/contents.do?key=483");
    (lit "캠퍼스맵",   lit "https://www.cbnu.ac.kr/www/contents.do?key=4");
    (lit "씨앗시스템", lit "https://seet.cbnu.ac.kr/");
    (lit "LMS",        lit "https://lms.cbnu.ac.kr/");
    (lit "마이페이지", lit "https://portal.cbnu.ac.kr/") ].

(** [init_db()], with the global list it inserts as an argument.  There is
    no [try] here: an error of [executemany] ends the program ([inl]). *)
Definition init_db (seed : list (str * str)) (db : Db) : result Db :=
  match executemany_insert_or_ignore seed [] with
  | inl e => inl e
  | inr t => inr (Some t)
  end.





(** The pattern [f"%{query}%"]. *)
Definition pattern_of (query : str) : str := pct :: query ++ [pct].

(** [search_resources(query)] *)
Definition search_resources (db : Db) (query : str)
  : list (str * str) * list Event :=
  match select_like (pattern_of query) db with
  | inr rows => (rows, [])
  | inl _ => ([], [Print SearchError])
  end.

(** [update_count(keyword)] *)
Definition update_count (db : Db) (kw : str) : Db * list Event :=
  match update_count_where kw db with
  | inr db' => (db', [])
  | inl _ => (db, [Print CountError])
  end.

(** The rows that [top_keywords] fetches, with the [LIMIT] of the query. *)
Definition top_rows (n : nat) (db : Db) : list (str * Z) * list Event :=
  match select_top n db with
  | inr rows => (rows, [])
  | inl _ => ([], [Print TopError])
  end.

Fixpoint top_lines (idx : nat) (rows : list (str * Z)) : list Event :=
  match rows with
  | [] => []
  | (kw, cnt) :: rest => Print (TopLine idx kw cnt) :: top_lines (S idx) rest
  end.

(** [top_keywords()] *)
Definition top_keywords (db : Db) : list Event :=
  let '(rows, ev) := top_rows 5 db in
  match rows with
  | [] => ev ++ [Print TopEmpty]
  | _ :: _ => ev ++ Print TopHeader :: top_lines 1 rows
  end.

(** [suggest_keywords(query)] *)
Definition suggest_keywords (db : Db) (query : str) : list str * list Event :=
  let '(all_keys, ev) :=
    match select_keywords db with
    | inr ks => (ks, [])
    | inl _ => ([], [Print KeysError])
    end in
  (get_close_matches query all_keys 3 (6 # 10), ev).

(** [add_resource()], with the two lines it reads as arguments. *)
Definition add_resource (db : Db) (kw_line url_line : str) : Db * list Event :=
  let kw := strip kw_line in
  let u := strip url_line in
  match insert kw u db with
  | inr db' => (db', [Print (AddOk kw)])
  | inl IntegrityError => (db, [Print (AddDuplicate kw)])
  | inl _ => (db, [Print AddError])
  end.

(** [delete_resource()] *)
Definition delete_resource (db : Db) (kw_line : str) : Db * list Event :=
  let kw := strip kw_line in
  match delete_where kw db with
  | inr (db', rowcount) =>
    (db', [Print (if (0 <? rowcount)%nat then DeleteOk kw else DeleteMissing kw)])
  | inl _ => (db, [Print DeleteError])
  end.

(** [list_resources()] *)
Definition list_resources (db : Db) : list Event :=
  let '(rows, ev) :=
    match select_all db with
    | inr rows => (rows, [])
    | inl _ => ([], [Print ListError])
    end in
  match rows with
  | [] => ev ++ [Print ListEmpty]
  | _ :: _ =>
    ev ++ Print ListHeader
       :: map (fun '(kw, u, cnt, tg) => Print (ListLine kw u cnt tg)) rows
  end.

(** [tag_resource()] *)
Definition tag_resource (db : Db) (kw_line tag_line : str) : Db * list Event :=
  let kw := strip kw_line in
  let tg := strip tag_line in
  match update_tag_where tg kw db with
  | inr (db', rowcount) =>
    (db', [Print (if (0 <? rowcount)%nat then TagOk kw tg else TagMissing kw)])
  | inl _ => (db, [Print TagError])
  end.

(** The rows that [show_by_tag] fetches. *)
Definition tag_rows (db : Db) (tg : str) : list (str * str) * list Event :=
  match select_by_tag tg db with
  | inr rows => (rows, [])
  | inl _ => ([], [Print CatError])
  end.

(** [show_by_tag()] *)
Definition show_by_tag (db : Db) (tag_line : str) : list Event :=
  let tg := strip tag_line in
  let '(rows, ev) := tag_rows db tg in
  match rows with
  | [] => ev ++ [Print (CatEmpty tg)]
  | _ :: _ => ev ++ Print (CatHeader tg) :: map (fun '(kw, u) => Print (CatLine kw u)) rows
  end.

(** The loop [for kw, url in matches] of [gui_search]. *)
Fixpoint gui_matches (db : Db) (matches : list (str * str)) : Db * list Event :=
  match matches with
  | [] => (db, [])
  | (kw, u) :: rest =>
    let '(db1, ev1) := update_count db kw in
    let '(db2, ev2) := gui_matches db1 rest in
    (db2, ListboxMatch kw u :: ev1 ++ Browser u :: ev2)
  end.

(** [gui_search()], with the text of the entry as an argument. *)
Definition gui_search (db : Db) (entry : str) : Db * list Event :=
  let q := strip entry in
  match q with
  | [] => (db, [ListboxClear])
  | _ :: _ =>
    let '(matches, ev0) := search_resources db q in
    match matches with
    | _ :: _ =>
      let '(db', ev) := gui_matches db matches in
      (db', ListboxClear :: ev0 ++ ev)
    | [] =>
      let '(sugg, ev1) := suggest_keywords db q in
      (db, ListboxClear :: ev0 ++ ListboxSuggestHeader :: ev1
                        ++ map ListboxSuggestion sugg)
    end
  end.

(** The words that the loop of [main] takes as commands. *)
Definition commands : list str :=
  [ lit "exit"; lit "quit"; lit "help"; lit "add"; lit "delete"; lit "list";
    lit "history"; lit "top"; lit "tag"; lit "cat"; lit "colleges";
    lit "graduate"; lit "research"; lit "admission"; lit "map"; lit "phone";
    lit "lang"; lit "gui" ].

(** Whether [cmd], the line read by [main] once stripped and put in lower
    case, reaches the last branch of the loop: a plain search. *)
Definition is_plain_search (cmd : str) : bool :=
  negb (existsb (str_eqb cmd) commands).

(** The loop [for kw, url in matches] of [main]. *)
Fixpoint main_matches (db : Db) (matches : list (str * str)) : Db * list Event :=
  match matches with
  | [] => (db, [])
  | (kw, u) :: rest =>
    let '(db1, ev1) := update_count db kw in
    let '(db2, ev2) := main_matches db1 rest in
    (db2, Print (Found kw u) :: ev1 ++ Browser u :: ev2)
  end.

(** The last branch of the loop of [main]: [log_search(cmd)], the search,
    then the matches or the suggestions. *)
Definition main_search (db : Db) (cmd : str) : Db * list Event :=
  let '(matches, ev0) := search_resources db cmd in
  match matches with
  | _ :: _ =>
    let '(db', ev) := main_matches db matches in
    (db', History cmd :: ev0 ++ ev)
  | [] =>
    let '(suggestions, ev1) := suggest_keywords db cmd in
    (db, History cmd :: ev0 ++ ev1
           ++ match suggestions with
              | [] => []
              | _ :: _ => [Print (DidYouMean suggestions)]
              end)
  end.

(* ------------------------------------------------------------------ *)
(** * The notions of the specification *)
(* ------------------------------------------------------------------ *)

(** ** The store *)

(** [usageCount(k)]: the count of the record whose keyword is [k]. *)
Definition usage_count (db : Db) (k : str) : option Z :=
  match db with
  | None => None
  | Some t => option_map count (find (fun r => str_eqb (keyword r) k) t)
  end.

(** A row whose texts went through the UTF-8 encoder. *)
Definition row_ok (r : Row) : Prop :=
  encodable (keyword r) = true /\ encodable (url r) = true
  /\ encodable (tag r) = true.

(** The tables the engine can hold: the keywords are unique (the column is
    UNIQUE) and the rows were all bound from encodable texts. *)
Definition wf_table (t : Table) : Prop :=
  NoDup (map keyword t) /\ Forall row_ok t.

Definition wf (db : Db) : Prop :=
  match db with
  | None => True
  | Some t => wf_table t
  end.

(** The counts of the table are 64-bit INTEGERs, as the column holds them
    until one has gone past 2^63 - 1. *)
Definition integer_counts (db : Db) : Prop :=
  match db with
  | None => True
  | Some t => Forall (fun r => - 2 ^ 63 <= count r < 2 ^ 63) t
  end.

(** The counts of the table are between 0 and [n]. *)
Definition counts_within (n : Z) (db : Db) : Prop :=
  match db with
  | None => True
  | Some t => Forall (fun r => 0 <= count r <= n) t
  end.

(** ** Seeding *)

(** The texts of a seed all go through the encoder. *)
Definition seed_ok (seed : list (str * str)) : Prop :=
  Forall (fun p => encodable (fst p) = true /\ encodable (snd p) = true) seed.

(** The seed with every keyword kept at its first occurrence only. *)
Fixpoint dedup_first (seed : list (str * str)) : list (str * str) :=
  match seed with
  | [] => []
  | (k, u) :: rest =>
    (k, u) :: filter (fun p => negb (str_eqb (fst p) k)) (dedup_first rest)
  end.

Definition fresh_row (p : str * str) : Row := mkRow (fst p) (snd p) 0 [].

(** What [list_resources] prints for the rows of a freshly seeded table. *)
Definition fresh_listing (l : list (str * str)) : list Event :=
  match l with
  | [] => [Print ListEmpty]
  | _ :: _ =>
    Print ListHeader :: map (fun p => Print (ListLine (fst p) (snd p) 0 [])) l
  end.

(** ** Searching *)

(** The rows that the SELECT of [search_resources] keeps for the pattern [P]. *)
Definition like_rows (P : str) (t : Table) : list (str * str) :=
  map (fun r => (keyword r, url r))
      (filter (fun r => patternCompare (cstr P) (cstr (keyword r))) t).

(** [q] occurs in [k] as a run of consecutive characters. *)
Definition substring (q k : str) : Prop :=
  exists pre post, k = pre ++ q ++ post.

(** ASCII letters folded to lower case, as [LIKE] compares them. *)
Definition fold_case (s : str) : str := map tolower s.

(** A text as [LIKE] compares it: every character as the engine reads it
    ([utf8_read]), ASCII letters folded to lower case. *)
Definition like_fold (s : str) : str := map (fun c => tolower (utf8_read c)) s.

(** A query without the characters that [LIKE] does not take literally
    ([%], [_], NUL), that the encoder accepts, and whose pattern fits the
    length limit of the engine. *)
Definition literal_char (c : Z) : bool :=
  negb (c =? pct) && negb (c =? und) && negb (c =? 0).

Definition plain_query (q : str) : Prop :=
  forallb literal_char q = true /\ encodable q = true
  /\ utf8_len q + 2 <= like_limit.

(** A run of searches typed in the form, one after the other. *)
Definition gui_searches (db : Db) (entries : list str) : Db :=
  fold_left (fun d e => fst (gui_search d e)) entries db.

(** A run of searches typed at the prompt of [main]. *)
Definition main_searches (db : Db) (cmds : list str) : Db :=
  fold_left (fun d c => fst (main_search d c)) cmds db.

(** The seed of the ranking example. *)
Definition ranking_seed : list (str * str) :=
  [ (lit "도서관", lit "https://a");
    (lit "기숙사", lit "https://b");
    (lit "LMS",    lit "https://lms.cbnu.ac.kr/") ].

(** ** Suggesting *)

(** A match of [find_longest_match] that ends at index [n] of [a] at most. *)
Definition ends_by (n : nat) (m : Match) : Prop :=
  (fst (fst m) + size_of m <= n)%nat.


(** [x] comes before [y] in [l]. *)
Definition before {A} (x y : A) (l : list A) : Prop :=
  exists l1 l2 l3, l = l1 ++ x :: l2 ++ y :: l3.

(** ** Four statements of the specification, as it words them *)

(** No record is matched, and so no count changed, by a line of [main]
    that is empty once stripped. *)
Definition blank_line_matches_nothing : Prop :=
  forall (db : Db) (line : str),
    wf db -> forallb isspace line = true ->
    fst (search_resources db (strip line)) = []
    /\ fst (main_search db (strip line)) = db.

(** The matches are the records whose keyword holds the query as it is
    written, letter case included. *)
Definition finds_exact_substrings : Prop :=
  forall (t : Table) (q k u : str),
    In (k, u) (fst (search_resources (Some t) q))
    <-> exists r, In r t /\ keyword r = k /\ url r = u /\ substring q k.






(** ** Sessions *)

(** The pages that a run opened, in order. *)
Fixpoint opened (evs : list Event) : list str :=
  match evs with
  | [] => []
  | Browser u :: rest => u :: opened rest
  | _ :: rest => opened rest
  end.

(** The queries that a run wrote to the history file, in order. *)
Fixpoint logged (evs : list Event) : list str :=
  match evs with
  | [] => []
  | History q :: rest => q :: logged rest
  | _ :: rest => logged rest
  end.

(** The steps that touch the table: a plain line at the prompt of
    [main], a search in the form, and the commands [add], [delete] and
    [tag] with the lines they read.  A session of the program does not
    mix them freely: the form runs inside [run_gui], which calls
    [init_db()] first, and [main] ends when the form is closed; so a
    session at the prompt is a run without [OpGuiSearch], and a session
    in the form is [gui_searches] from the table that [init_db] left. *)
Inductive Op :=
| OpSearch (cmd : str)
| OpGuiSearch (entry : str)
| OpAdd (kw_line url_line : str)
| OpDelete (kw_line : str)
| OpTag (kw_line tag_line : str).

Definition step (db : Db) (o : Op) : Db :=
  match o with
  | OpSearch cmd => fst (main_search db cmd)
  | OpGuiSearch entry => fst (gui_search db entry)
  | OpAdd k u => fst (add_resource db k u)
  | OpDelete k => fst (delete_resource db k)
  | OpTag k g => fst (tag_resource db k g)
  end.

Definition run (db : Db) (ops : list Op) : Db := fold_left step ops db.

Definition is_delete (o : Op) : bool :=
  match o with OpDelete _ => true | _ => false end.

(** A step at the prompt of [main] that deletes nothing: a search, [add]
    or [tag]. *)
Definition keeps_records (o : Op) : bool :=
  match o with
  | OpSearch _ | OpAdd _ _ | OpTag _ _ => true
  | OpGuiSearch _ | OpDelete _ => false
  end.

(** A text without NUL. *)
Definition nul_free (s : str) : bool := forallb (fun c => negb (c =? 0)) s.


(* ------------------------------------------------------------------ *)
(** * The history file *)
(* ------------------------------------------------------------------ *)

(** The text of [search_history.txt], as written, or [None] when the file
    does not exist.  Lines end with LF (10), as where [os.linesep] is LF. *)
Definition File := option str.

Inductive HistoryOut :=
| HistoryWriteError                 (* 검색 기록 파일 쓰기 오류 *)
| HistoryNone                       (* 검색 기록이 없습니다. *)
| HistoryHeader                     (* 최근 검색어: *)
| HistoryEntry (line : str).        (* - line *)

(** [log_search(query)]: [open(..., 'a')] creates the file, then the
    encoder refuses the text or the line is appended. *)
Definition log_search (f : File) (query : str) : File * list HistoryOut :=
  let text := match f with Some s => s | None => [] end in
  if encodable query then (Some (text ++ query ++ [10]), [])
  else (Some text, [HistoryWriteError]).

(** What reading in text mode does to the ends of lines: CR LF and CR
    alone are read as LF. *)
Fixpoint universal_newlines (s : str) : str :=
  match s with
  | [] => []
  | c :: s' =>
    if c =? 13 then
      10 :: match s' with
            | [] => []
            | d :: s'' => if d =? 10 then universal_newlines s''
                          else universal_newlines s'
            end
    else c :: universal_newlines s'
  end.

(** The lines of a text, each with the LF that ends it. *)
Fixpoint split_lines (s : str) : list str :=
  match s with
  | [] => []
  | c :: s' =>
    if c =? 10 then [c] :: split_lines s'
    else match split_lines s' with
         | [] => [[c]]
         | l :: ls => (c :: l) :: ls
         end
  end.

(** [f.readlines()] *)
Definition readlines (text : str) : list str :=
  split_lines (universal_newlines text).

(** [l[-n:]], for [n > 0] *)
Definition last_n {A} (n : nat) (l : list A) : list A :=
  skipn (length l - n) l.

(** [show_history()], for a file that holds what [log_search] wrote. *)
Definition show_history (f : File) : list HistoryOut :=
  match f with
  | None => [HistoryNone]
  | Some text =>
    HistoryHeader
      :: map (fun line => HistoryEntry (strip line)) (last_n 10 (readlines text))
  end.

(** The file after the queries [qs] were logged one after the other. *)
Definition log_all (f : File) (qs : list str) : File :=
  fold_left (fun f q => fst (log_search f q)) qs f.

(** A query that the encoder accepts and that holds no end of line. *)
Definition one_line (q : str) : bool :=
  encodable q && forallb (fun c => negb (c =? 10) && negb (c =? 13)) q.

(* ------------------------------------------------------------------ *)
(** * The two languages *)
(* ------------------------------------------------------------------ *)

(** [d.get(k)] on a dictionary written as the list of its items. *)
Fixpoint dict_get {V} (k : str) (d : list (str * V)) : option V :=
  match d with
  | [] => None
  | (k', v) :: rest => if str_eqb k' k then Some v else dict_get k rest
  end.

Definition messages : list (str * list (str * str)) :=
  [ (lit "welcome",
     [(lit "ko", lit "충북대 챗봇에 오신 것을 환영합니다!");
      (lit "en", lit "Welcome to CBNU Bot!")]);
    (lit "help",
     [(lit "ko", lit "검색 가능한 키워드 목록을 보려면 help를 입력하세요.");
      (lit "en", lit "Type help to see available search keywords.")]);
    (lit "search_label",
     [(lit "ko", lit "검색어 입력:"); (lit "en", lit "Enter keyword:")]);
    (lit "search_button",
     [(lit "ko", lit "검색"); (lit "en", lit "Search")]);
    (lit "lang_button",
     [(lit "ko", lit "English"); (lit "en", lit "한국어")]);
    (lit "suggest",
     [(lit "ko", lit "혹시 다음 키워드를 찾으시나요?");
      (lit "en", lit "Did you mean:")]);
    (lit "exit_msg",
     [(lit "ko", lit "안녕히 가세요!"); (lit "en", lit "Goodbye!")]) ].

(** [get_msg(key)], with the global [LANG] as an argument. *)
Definition get_msg (LANG key : str) : str :=
  match dict_get key messages with
  | None => []
  | Some m => match dict_get LANG m with
              | None => []
              | Some s => s
              end
  end.

(** [toggle_language()]: the new [LANG] and the line printed. *)
Definition toggle_language (LANG : str) : str * str :=
  let LANG' := if str_eqb LANG (lit "ko") then lit "en" else lit "ko" in
  (LANG',
   if str_eqb LANG' (lit "en") then get_msg LANG' (lit "welcome")
   else get_msg LANG' (lit "exit_msg")).

(* ------------------------------------------------------------------ *)
(** * Text *)
(* ------------------------------------------------------------------ *)

Lemma str_eqb_eq (a b : str) : str_eqb a b = true <-> a = b.
Proof.
  revert b; induction a as [|x a IH]; intros [|y b]; simpl;
    try (split; [discriminate | congruence]); try tauto.
  rewrite andb_true_iff, Z.eqb_eq, IH. split.
  - intros [-> ->]; reflexivity.
  - intros E; injection E; auto.
Qed.

Lemma str_eqb_refl (a : str) : str_eqb a a = true.
Proof. apply str_eqb_eq; reflexivity. Qed.

Lemma str_eqb_neq (a b : str) : str_eqb a b = false <-> a <> b.
Proof.
  rewrite <- str_eqb_eq. destruct (str_eqb a b); split; congruence.
Qed.

Lemma str_eqb_sym (a b : str) : str_eqb a b = str_eqb b a.
Proof.
  destruct (str_eqb a b) eqn:E; symmetry.
  - apply str_eqb_eq; symmetry; apply str_eqb_eq; exact E.
  - apply str_eqb_neq; intros ->. rewrite str_eqb_refl in E; discriminate.
Qed.

Lemma lstrip_blank (s : str) : forallb isspace s = true -> lstrip s = [].
Proof.
  induction s as [|c s IH]; simpl; [reflexivity|].
  rewrite andb_true_iff; intros [-> H]; auto.
Qed.

(** A line of white space only strips to the empty text. *)
Lemma strip_blank (s : str) : forallb isspace s = true -> strip s = [].
Proof.
  intros H; unfold strip, rstrip. rewrite (lstrip_blank s H); reflexivity.
Qed.

(* ------------------------------------------------------------------ *)
(** * The table *)
(* ------------------------------------------------------------------ *)

Lemma has_keyword_In (k : str) (t : Table) :
  has_keyword k t = true <-> In k (map keyword t).
Proof.
  unfold has_keyword. rewrite existsb_exists, in_map_iff. split.
  - intros [r [Hin E]]. exists r. apply str_eqb_eq in E. auto.
  - intros [r [E Hin]]. exists r. split; [assumption|]. apply str_eqb_eq; assumption.
Qed.

Lemma has_keyword_false (k : str) (t : Table) :
  has_keyword k t = false <-> ~ In k (map keyword t).
Proof.
  rewrite <- has_keyword_In. destruct (has_keyword k t); split; congruence.
Qed.

Lemma usage_count_None (t : Table) (k : str) :
  usage_count (Some t) k = None <-> ~ In k (map keyword t).
Proof.
  simpl. induction t as [|r t IH]; simpl; [tauto|].
  destruct (str_eqb (keyword r) k) eqn:E; simpl.
  - apply str_eqb_eq in E. split; [discriminate | intros H; exfalso; auto].
  - apply str_eqb_neq in E. rewrite IH. tauto.
Qed.

Lemma bump_where_absent (k : str) (t : Table) :
  ~ In k (map keyword t) -> bump_where k t = t.
Proof.
  induction t as [|r t IH]; simpl; intros H; [reflexivity|].
  destruct (str_eqb (keyword r) k) eqn:E.
  - apply str_eqb_eq in E. exfalso; auto.
  - f_equal. apply IH. tauto.
Qed.

Lemma bump_where_frame (k : str) (t : Table) :
  Forall2 (fun r r' => keyword r' = keyword r /\ url r' = url r
                       /\ tag r' = tag r /\ (keyword r <> k -> r' = r))
          t (bump_where k t).
Proof.
  induction t as [|r t IH]; simpl; constructor; [|exact IH].
  destruct (str_eqb (keyword r) k) eqn:E; simpl; repeat split; auto.
  apply str_eqb_eq in E. intros N; contradiction.
Qed.

Lemma update_count_db (db : Db) (k : str) :
  fst (update_count db k)
  = match db with
    | Some t => if encodable k then Some (bump_where k t) else db
    | None => None
    end.
Proof.
  unfold update_count, update_count_where.
  destruct db as [t|]; [|reflexivity]. destruct (encodable k); reflexivity.
Qed.

(** C10. [update_count(k)] changes nothing but the count of the record whose
    keyword is [k]: row by row, the keyword, the locator and the tag are
    those of before, a row with another keyword is the very same row, a
    file without the table stays so, and when no record has keyword [k]
    the store as a whole is unchanged. *)
Theorem update_count_frame (db : Db) (k : str) :
  match db with
  | Some t =>
    exists t', fst (update_count db k) = Some t'
      /\ Forall2 (fun r r' => keyword r' = keyword r /\ url r' = url r
                              /\ tag r' = tag r /\ (keyword r <> k -> r' = r))
                 t t'
  | None => fst (update_count db k) = None
  end
  /\ (usage_count db k = None -> fst (update_count db k) = db).
Proof.
  rewrite update_count_db. destruct db as [t|]; split; try reflexivity.
  - destruct (encodable k).
    + exists (bump_where k t). split; [reflexivity | apply bump_where_frame].
    + exists t. split; [reflexivity|].
      clear. induction t; constructor; auto.
  - intros H. apply usage_count_None in H.
    destruct (encodable k); [|reflexivity]. rewrite bump_where_absent; auto.
Qed.

(* ------------------------------------------------------------------ *)
(** * The scan of [search_resources] *)
(* ------------------------------------------------------------------ *)

Lemma scan_like_short (P : str) (t : Table) :
  utf8_len P <= like_limit -> scan_like P t = inr (like_rows P t).
Proof.
  intros H. unfold like_rows.
  induction t as [|r t IH]; simpl; [reflexivity|].
  unfold like. destruct (like_limit <? utf8_len P) eqn:E.
  - apply Z.ltb_lt in E. lia.
  - rewrite IH. destruct (patternCompare _ _); reflexivity.
Qed.

Lemma scan_like_long (P : str) (t : Table) :
  like_limit < utf8_len P ->
  scan_like P t = match t with [] => inr [] | _ :: _ => inl OperationalError end.
Proof.
  intros H. destruct t as [|r t]; simpl; [reflexivity|].
  unfold like. apply Z.ltb_lt in H. rewrite H. reflexivity.
Qed.

(** Whatever the query, the matches are rows of the table, in its order. *)
Lemma search_resources_rows (t : Table) (q : str) :
  exists keep, fst (search_resources (Some t) q)
               = map (fun r => (keyword r, url r)) (filter keep t).
Proof.
  unfold search_resources, select_like.
  destruct (encodable (pattern_of q)).
  - destruct (Z_le_gt_dec (utf8_len (pattern_of q)) like_limit) as [L|L].
    + rewrite scan_like_short by assumption. eexists; reflexivity.
    + rewrite scan_like_long by lia. destruct t.
      * exists (fun _ => false); reflexivity.
      * exists (fun _ => false); simpl. clear.
        induction t; simpl; auto.
  - exists (fun _ => false). simpl. clear. induction t; simpl; auto.
Qed.

Lemma search_resources_no_table (q : str) :
  search_resources None q = ([], [Print SearchError]).
Proof. reflexivity. Qed.

Lemma filter_keywords_NoDup (keep : Row -> bool) (t : Table) :
  NoDup (map keyword t) -> NoDup (map keyword (filter keep t)).
Proof.
  induction t as [|r t IH]; simpl; intros H; [constructor|].
  inversion H as [|? ? Hn Hd]; subst.
  destruct (keep r); simpl; auto.
  constructor; auto.
  intros Hin. apply Hn. apply in_map_iff in Hin. destruct Hin as [x [E Hx]].
  apply filter_In in Hx. apply in_map_iff. exists x; tauto.
Qed.

(* ------------------------------------------------------------------ *)
(** * Counting the matches *)
(* ------------------------------------------------------------------ *)

Lemma usage_count_bump_where (kw k : str) (t : Table) :
  usage_count (Some (bump_where kw t)) k
  = option_map (fun c => if str_eqb k kw then add_one c else c)
               (usage_count (Some t) k).
Proof.
  simpl. induction t as [|r t IH]; simpl; [reflexivity|].
  destruct (str_eqb (keyword r) kw) eqn:E; simpl.
  - destruct (str_eqb (keyword r) k) eqn:F; simpl; [|exact IH].
    apply str_eqb_eq in E, F. subst. rewrite str_eqb_refl. reflexivity.
  - destruct (str_eqb (keyword r) k) eqn:F; simpl; [|exact IH].
    apply str_eqb_eq in F. subst. rewrite E. reflexivity.
Qed.

Lemma main_matches_counts (matches : list (str * str)) (t : Table) :
  (forall p, In p matches -> encodable (fst p) = true) ->
  NoDup (map fst matches) ->
  exists t', fst (main_matches (Some t) matches) = Some t'
    /\ forall k, usage_count (Some t') k
                 = option_map (fun c => if existsb (str_eqb k) (map fst matches)
                                        then add_one c else c)
                              (usage_count (Some t) k).
Proof.
  revert t. induction matches as [|[kw u] rest IH]; intros t Henc Hnd.
  - exists t. split; [reflexivity|]. intros k. simpl.
    destruct (option_map _ _); reflexivity.
  - simpl in Hnd. inversion Hnd as [|? ? Hn Hd]; subst.
    assert (Ekw : encodable kw = true) by (apply (Henc (kw, u)); left; reflexivity).
    destruct (IH (bump_where kw t)) as [t' [Ht' Hc]]; auto.
    { intros p Hp. apply Henc. right; assumption. }
    exists t'. split.
    + simpl. unfold update_count, update_count_where. rewrite Ekw.
      destruct (main_matches (Some (bump_where kw t)) rest) as [d e] eqn:M.
      simpl in Ht'. simpl. assumption.
    + intros k. rewrite Hc, usage_count_bump_where.
      destruct (usage_count (Some t) k) as [c|]; simpl; [|reflexivity].
      f_equal. destruct (str_eqb k kw) eqn:E; simpl.
      * apply str_eqb_eq in E. subst k.
        assert (X : existsb (str_eqb kw) (map fst rest) = false).
        { apply not_true_is_false. intros X. apply existsb_exists in X.
          destruct X as [x [Hx Ex]]. apply str_eqb_eq in Ex. subst x. auto. }
        rewrite X. reflexivity.
      * reflexivity.
Qed.

Lemma gui_matches_db (matches : list (str * str)) (db : Db) :
  fst (gui_matches db matches) = fst (main_matches db matches).
Proof.
  revert db. induction matches as [|[kw u] rest IH]; intros db; [reflexivity|].
  simpl. destruct (update_count db kw) as [db1 ev1].
  specialize (IH db1).
  destruct (gui_matches db1 rest), (main_matches db1 rest). simpl in *. assumption.
Qed.

Lemma main_search_db (db : Db) (q : str) :
  fst (main_search db q) = fst (main_matches db (fst (search_resources db q))).
Proof.
  unfold main_search. destruct (search_resources db q) as [[|m ms] ev0]; simpl.
  - destruct (suggest_keywords db q); reflexivity.
  - destruct m as [kw u]. destruct (update_count db kw) as [db1 ev1].
    destruct (main_matches db1 ms); reflexivity.
Qed.

(** The search of the form runs the same updates as the one of the console. *)
Lemma gui_search_db (db : Db) (entry : str) :
  strip entry <> [] ->
  fst (gui_search db entry) = fst (main_search db (strip entry)).
Proof.
  intros H. rewrite main_search_db, <- gui_matches_db. unfold gui_search.
  destruct (strip entry) as [|c q] eqn:S; [congruence|].
  destruct (search_resources db (c :: q)) as [[|m ms] ev0]; simpl.
  - destruct (suggest_keywords db (c :: q)); reflexivity.
  - destruct m as [kw u]. destruct (update_count db kw) as [db1 ev1].
    destruct (gui_matches db1 ms); reflexivity.
Qed.

Lemma usage_count_row (t : Table) (k : str) (c : Z) :
  usage_count (Some t) k = Some c ->
  exists r, In r t /\ keyword r = k /\ count r = c.
Proof.
  simpl. destruct (find (fun r => str_eqb (keyword r) k) t) as [r|] eqn:F;
    [|discriminate].
  intros E. injection E as <-. apply find_some in F. destruct F as [Hin Hk].
  apply str_eqb_eq in Hk. exists r. auto.
Qed.



(* ------------------------------------------------------------------ *)
(** * Seeding *)
(* ------------------------------------------------------------------ *)

Section Seeding.

Let absent (t : Table) (p : str * str) : bool := negb (has_keyword (fst p) t).
Let other (k : str) (p : str * str) : bool := negb (str_eqb (fst p) k).

Lemma executemany_fold (seed : list (str * str)) (t : Table) :
  seed_ok seed ->
  executemany_insert_or_ignore seed t
  = inr (fold_left (fun acc p => insert_or_ignore (fst p) (snd p) acc) seed t).
Proof.
  intros H. revert t. induction H as [|[k u] rest [Hk Hu] _ IH]; intros t.
  - reflexivity.
  - simpl in *. rewrite Hk, Hu. simpl. apply IH.
Qed.

Lemma has_keyword_app (k : str) (t1 t2 : Table) :
  has_keyword k (t1 ++ t2) = has_keyword k t1 || has_keyword k t2.
Proof. unfold has_keyword. apply existsb_app. Qed.

Lemma filter_twice {A} (f g : A -> bool) (l : list A) :
  filter f (filter g l) = filter (fun x => g x && f x) l.
Proof.
  induction l as [|x l IH]; simpl; [reflexivity|].
  destruct (g x); simpl; [destruct (f x)|]; rewrite ?IH; reflexivity.
Qed.

(** The inserts keep, of every keyword, the first pair that carries it and
    that is not in the table yet. *)
Lemma insert_or_ignore_fold (seed : list (str * str)) (t : Table) :
  fold_left (fun acc p => insert_or_ignore (fst p) (snd p) acc) seed t
  = t ++ map fresh_row (filter (absent t) (dedup_first seed)).
Proof.
  revert t. induction seed as [|[k u] rest IH]; intros t; simpl.
  - symmetry; apply app_nil_r.
  - rewrite IH. unfold insert_or_ignore, absent at 2. simpl.
    destruct (has_keyword k t) eqn:E; simpl.
    + f_equal. f_equal. rewrite filter_twice. apply filter_ext. intros [k' u'].
      unfold absent, other. simpl.
      destruct (str_eqb k' k) eqn:F; simpl; [|reflexivity].
      apply str_eqb_eq in F. subst. rewrite E. reflexivity.
    + rewrite <- app_assoc. simpl. f_equal. f_equal. f_equal.
      rewrite filter_twice. apply filter_ext. intros [k' u'].
      unfold absent, other. simpl. rewrite has_keyword_app. simpl.
      rewrite orb_false_r, negb_orb, andb_comm, (str_eqb_sym k k'). reflexivity.
Qed.

Lemma filter_all {A} (f : A -> bool) (l : list A) :
  (forall x, In x l -> f x = true) -> filter f l = l.
Proof.
  induction l as [|x l IH]; simpl; intros H; [reflexivity|].
  rewrite (H x) by auto. f_equal. apply IH. auto.
Qed.

Lemma seeded_table (seed : list (str * str)) :
  fold_left (fun acc p => insert_or_ignore (fst p) (snd p) acc) seed []
  = map fresh_row (dedup_first seed).
Proof.
  rewrite insert_or_ignore_fold. simpl. f_equal. apply filter_all. reflexivity.
Qed.

End Seeding.

Lemma dedup_first_sub (seed : list (str * str)) (p : str * str) :
  In p (dedup_first seed) -> In p seed.
Proof.
  induction seed as [|[k u] rest IH]; simpl; [tauto|].
  intros [H|H]; [left; assumption|]. apply filter_In in H. right; tauto.
Qed.

Lemma dedup_first_NoDup (seed : list (str * str)) :
  NoDup (map fst (dedup_first seed)).
Proof.
  induction seed as [|[k u] rest IH]; simpl; constructor.
  - intros H. apply in_map_iff in H. destruct H as [[k' u'] [E H]].
    apply filter_In in H. simpl in *. subst k'.
    rewrite str_eqb_refl in H. destruct H; discriminate.
  - clear -IH. induction (dedup_first rest) as [|[k' u'] l IHl]; simpl; [constructor|].
    simpl in IH. inversion IH as [|? ? Hn Hd]; subst.
    destruct (str_eqb k' k); simpl; auto. constructor; auto.
    intros H. apply Hn. apply in_map_iff in H. destruct H as [x [E H]].
    apply filter_In in H. apply in_map_iff. exists x; tauto.
Qed.

(** A pair stays exactly when it is the first of the seed with its keyword. *)
Lemma dedup_first_find (seed : list (str * str)) (k u : str) :
  In (k, u) (dedup_first seed)
  <-> find (fun p => str_eqb (fst p) k) seed = Some (k, u).
Proof.
  induction seed as [|[k0 u0] rest IH]; simpl.
  - split; [tauto | discriminate].
  - destruct (str_eqb k0 k) eqn:E.
    + apply str_eqb_eq in E. subst k0. split.
      * intros [H|H]; [congruence|]. apply filter_In in H. simpl in H.
        rewrite str_eqb_refl in H. destruct H; discriminate.
      * intros H. left. congruence.
    + split.
      * intros [H|H].
        { injection H as -> ->. rewrite str_eqb_refl in E. discriminate. }
        apply filter_In in H. apply IH. tauto.
      * intros H. right. apply filter_In. split; [apply IH; assumption|].
        simpl. rewrite str_eqb_sym, E. reflexivity.
Qed.

Lemma init_db_table (seed : list (str * str)) (db : Db) :
  seed_ok seed -> init_db seed db = inr (Some (map fresh_row (dedup_first seed))).
Proof.
  intros H. unfold init_db. rewrite executemany_fold by assumption.
  rewrite seeded_table. reflexivity.
Qed.

(** The table that [init_db] leaves is one the engine can hold. *)
Lemma init_db_wf (seed : list (str * str)) (db db' : Db) :
  init_db seed db = inr db' -> seed_ok seed -> wf db'.
Proof.
  intros E H. rewrite init_db_table in E by assumption. injection E as <-.
  split.
  - rewrite map_map. simpl. apply dedup_first_NoDup.
  - apply Forall_forall. intros r Hr. apply in_map_iff in Hr.
    destruct Hr as [p [<- Hp]]. apply dedup_first_sub in Hp.
    unfold seed_ok in H. rewrite Forall_forall in H. destruct (H p Hp).
    repeat split; simpl; auto.
Qed.

(** C5. [init_db] over any file leaves exactly the pairs of the seed, each
    keyword at its first occurrence, every count at 0 and every tag empty:
    that is what [list_resources] then fetches and prints; and running it
    again over its own result gives the same table. *)
Theorem init_db_reseeds (seed : list (str * str)) (db : Db) :
  seed_ok seed ->
  exists db',
    init_db seed db = inr db'
    /\ select_all db'
       = inr (map (fun p => (fst p, snd p, 0, [])) (dedup_first seed))
    /\ list_resources db' = fresh_listing (dedup_first seed)
    /\ init_db seed db' = inr db'
    /\ NoDup (map fst (dedup_first seed))
    /\ (forall k u, In (k, u) (dedup_first seed)
                    <-> find (fun p => str_eqb (fst p) k) seed = Some (k, u)).
Proof.
  intros H. exists (Some (map fresh_row (dedup_first seed))).
  assert (S : select_all (Some (map fresh_row (dedup_first seed)))
              = inr (map (fun p => (fst p, snd p, 0, [])) (dedup_first seed))).
  { simpl. rewrite map_map. reflexivity. }
  split; [apply init_db_table; assumption|].
  split; [exact S|].
  split.
  { unfold list_resources. rewrite S.
    destruct (dedup_first seed) as [|p l]; simpl; [reflexivity|].
    rewrite map_map. reflexivity. }
  split; [apply init_db_table; assumption|].
  split; [apply dedup_first_NoDup | apply dedup_first_find].
Qed.

(* ------------------------------------------------------------------ *)
(** * Adding a keyword *)
(* ------------------------------------------------------------------ *)


Lemma insert_absent (t : Table) (kw u : str) :
  encodable kw = true -> encodable u = true -> ~ In kw (map keyword t) ->
  insert kw u (Some t) = inr (Some (t ++ [mkRow kw u 0 []])).
Proof.
  intros Hk Hu Hin. unfold insert. rewrite Hk, Hu. simpl.
  apply has_keyword_false in Hin. rewrite Hin. reflexivity.
Qed.

Lemma NoDup_snoc {A} (l : list A) (a : A) :
  NoDup l -> ~ In a l -> NoDup (l ++ [a]).
Proof.
  induction l as [|x l IH]; simpl; intros Hnd Hin.
  - constructor; [tauto | constructor].
  - inversion Hnd as [|? ? Hx Hl]; subst. constructor.
    + rewrite in_app_iff. simpl. intros [H|[H|[]]]; [tauto|]. subst. tauto.
    + apply IH; tauto.
Qed.

(** Whatever [add_resource] is given, the rows that were there stay as
    they are, and the table stays one the engine can hold. *)
Lemma add_resource_keeps (db : Db) (kw_line url_line : str) :
  wf db ->
  wf (fst (add_resource db kw_line url_line))
  /\ match db, fst (add_resource db kw_line url_line) with
     | Some t, Some t' => t' = t \/ exists r, t' = t ++ [r]
     | None, None => True
     | _, _ => False
     end.
Proof.
  intros Hwf. unfold add_resource, insert.
  destruct db as [t|]; simpl; [|tauto].
  destruct (encodable (strip kw_line)) eqn:Hk;
    destruct (encodable (strip url_line)) eqn:Hu; simpl; auto.
  destruct (has_keyword (strip kw_line) t) eqn:Hh; simpl; auto.
  split; [|right; eexists; reflexivity].
  destruct Hwf as [Hnd Hok]. split.
  - rewrite map_app. simpl. apply has_keyword_false in Hh.
    apply NoDup_snoc; assumption.
  - apply Forall_app. split; [assumption|]. constructor; [|constructor].
    repeat split; simpl; auto.
Qed.


(* ------------------------------------------------------------------ *)
(** * The invariant of the table *)
(* ------------------------------------------------------------------ *)

Lemma map_keyword_same (f : Row -> Row) (t : Table) :
  (forall r, keyword (f r) = keyword r) -> map keyword (map f t) = map keyword t.
Proof.
  intros H. rewrite map_map. apply map_ext. exact H.
Qed.

Lemma wf_table_map (f : Row -> Row) (t : Table) :
  (forall r, keyword (f r) = keyword r) ->
  (forall r, row_ok r -> row_ok (f r)) ->
  wf_table t -> wf_table (map f t).
Proof.
  intros Hk Hr [Hnd Hok]. split.
  - rewrite map_keyword_same; assumption.
  - apply Forall_map. revert Hok. apply Forall_impl. exact Hr.
Qed.

Lemma wf_table_filter (keep : Row -> bool) (t : Table) :
  wf_table t -> wf_table (filter keep t).
Proof.
  intros [Hnd Hok]. split.
  - apply filter_keywords_NoDup; assumption.
  - rewrite Forall_forall in *. intros r Hr. apply filter_In in Hr. apply Hok; tauto.
Qed.

Lemma update_count_wf (db : Db) (k : str) : wf db -> wf (fst (update_count db k)).
Proof.
  intros H. rewrite update_count_db. destruct db as [t|]; [|exact I].
  destruct (encodable k); [|exact H].
  apply wf_table_map; [| |exact H]; intros r.
  - destruct (str_eqb (keyword r) k); reflexivity.
  - destruct (str_eqb (keyword r) k); [|tauto]. unfold row_ok, bump; simpl; tauto.
Qed.

Lemma main_matches_wf (matches : list (str * str)) :
  forall db, wf db -> wf (fst (main_matches db matches)).
Proof.
  induction matches as [|[kw u] rest IH]; intros db H; [exact H|].
  simpl. pose proof (update_count_wf db kw H) as H1.
  destruct (update_count db kw) as [db1 ev1]. specialize (IH db1 H1).
  destruct (main_matches db1 rest). exact IH.
Qed.

(** Every step of a session keeps the table one the engine can hold. *)
Lemma session_wf (db : Db) :
  wf db ->
  (forall cmd, wf (fst (main_search db cmd)))
  /\ (forall entry, wf (fst (gui_search db entry)))
  /\ (forall k u, wf (fst (add_resource db k u)))
  /\ (forall k g, wf (fst (tag_resource db k g)))
  /\ (forall k, wf (fst (delete_resource db k))).
Proof.
  intros H. split; [intros cmd|split; [intros entry|split; [intros k u|split; [intros k g|intros k]]]].
  - rewrite main_search_db. apply main_matches_wf, H.
  - destruct (strip entry) as [|c s] eqn:E.
    + unfold gui_search. rewrite E. exact H.
    + rewrite gui_search_db by congruence. rewrite main_search_db.
      apply main_matches_wf, H.
  - apply add_resource_keeps, H.
  - unfold tag_resource, update_tag_where. destruct db as [t|]; [|exact I].
    destruct (encodable (strip g)) eqn:Eg; simpl; [|exact H].
    destruct (encodable (strip k)); simpl; [|exact H].
    apply wf_table_map; [| |exact H]; intros r.
    + destruct (str_eqb (keyword r) (strip k)); reflexivity.
    + destruct (str_eqb (keyword r) (strip k)); [|tauto].
      unfold row_ok, retag; simpl; tauto.
  - unfold delete_resource, delete_where. destruct db as [t|]; [|exact I].
    destruct (encodable (strip k)); simpl; [|exact H].
    apply wf_table_filter, H.
Qed.

(* ------------------------------------------------------------------ *)
(** * Tags *)
(* ------------------------------------------------------------------ *)

Section Tags.

Variables kw tg : str.

Let set_tag (r : Row) : Row := if str_eqb (keyword r) kw then retag tg r else r.
Let tagged (r : Row) : bool := str_eqb (tag r) tg.
Let pair_of (r : Row) : str * str := (keyword r, url r).

Lemma untagged_rows (t : Table) :
  (forall r, In r t -> tag r <> tg) -> filter tagged t = [].
Proof.
  induction t as [|x t IH]; simpl; intros H; [reflexivity|].
  unfold tagged at 1. destruct (str_eqb (tag x) tg) eqn:E.
  - apply str_eqb_eq in E. exfalso. apply (H x); auto.
  - apply IH. auto.
Qed.

Lemma others_untouched (t : Table) :
  ~ In kw (map keyword t) -> map set_tag t = t.
Proof.
  induction t as [|x t IH]; simpl; intros H; [reflexivity|].
  unfold set_tag at 1. destruct (str_eqb (keyword x) kw) eqn:E.
  - apply str_eqb_eq in E. tauto.
  - f_equal. apply IH. tauto.
Qed.

Lemma retag_then_select (t : Table) (r : Row) :
  NoDup (map keyword t) -> In r t -> keyword r = kw ->
  (forall r', In r' t -> keyword r' <> kw -> tag r' <> tg) ->
  map pair_of (filter tagged (map set_tag t)) = [(kw, url r)].
Proof.
  induction t as [|x t IH]; simpl; intros Hnd Hin Hk Hothers; [tauto|].
  apply NoDup_cons_iff in Hnd. destruct Hnd as [Hx Ht].
  unfold set_tag at 1. destruct (str_eqb (keyword x) kw) eqn:E.
  - apply str_eqb_eq in E.
    assert (X : url x = url r).
    { destruct Hin as [H|H]; [rewrite H; reflexivity|]. exfalso. apply Hx.
      rewrite E, <- Hk. apply in_map; assumption. }
    unfold tagged at 1. simpl. rewrite str_eqb_refl. simpl.
    rewrite others_untouched by (rewrite <- E; assumption).
    rewrite untagged_rows;
      [unfold pair_of, set_tag; rewrite (proj2 (str_eqb_eq _ _) E); simpl;
       rewrite E, X; reflexivity|].
    intros r' Hr'. apply Hothers; [auto|]. intros F. apply Hx. rewrite E, <- F.
    apply in_map; assumption.
  - apply str_eqb_neq in E.
    unfold tagged at 1. destruct (str_eqb (tag x) tg) eqn:F.
    + apply str_eqb_eq in F. exfalso. apply (Hothers x); auto.
    + apply IH; auto. destruct Hin as [H|H]; [|assumption].
      exfalso. apply E. rewrite H. assumption.
Qed.

Lemma rowcount_positive (t : Table) (r : Row) :
  In r t -> keyword r = kw ->
  (0 <? length (filter (fun x => str_eqb (keyword x) kw) t))%nat = true.
Proof.
  intros Hin Hk. apply Nat.ltb_lt.
  assert (H : In r (filter (fun x => str_eqb (keyword x) kw) t)).
  { apply filter_In. split; [assumption|]. apply str_eqb_eq; assumption. }
  destruct (filter _ t); [destruct H | simpl; lia].
Qed.

(** Tagging one keyword and then asking for the tag, when the keyword and
    the tag are what [strip] leaves of the lines typed. *)
Lemma tag_then_cat (t : Table) (u : str) :
  strip kw = kw -> strip tg = tg ->
  encodable kw = true -> encodable tg = true ->
  NoDup (map keyword t) ->
  In (kw, u) (map pair_of t) ->
  (forall r, In r t -> keyword r <> kw -> tag r <> tg) ->
  exists db',
    tag_resource (Some t) kw tg = (db', [Print (TagOk kw tg)])
    /\ tag_rows db' tg = ([(kw, u)], [])
    /\ show_by_tag db' tg = [Print (CatHeader tg); Print (CatLine kw u)].
Proof.
  intros Sk St Ek Et Hnd Hin Hothers.
  apply in_map_iff in Hin. destruct Hin as [r [Hr Hin]].
  unfold pair_of in Hr. injection Hr as Hk Hu.
  exists (Some (map set_tag t)).
  assert (R : tag_rows (Some (map set_tag t)) tg = ([(kw, u)], [])).
  { unfold tag_rows, select_by_tag. rewrite Et.
    fold tagged. fold pair_of.
    rewrite (retag_then_select t r) by assumption. rewrite Hu. reflexivity. }
  split; [|split].
  - unfold tag_resource, update_tag_where. rewrite Sk, St, Ek, Et. simpl.
    rewrite (rowcount_positive t r) by assumption. reflexivity.
  - exact R.
  - unfold show_by_tag. rewrite St, R. reflexivity.
Qed.

(** A tag that no record carries selects no row. *)
Lemma cat_unused (t : Table) :
  (forall r, In r t -> tag r <> tg) -> fst (tag_rows (Some t) tg) = [].
Proof.
  intros H. unfold tag_rows, select_by_tag.
  destruct (encodable tg); [|reflexivity]. simpl.
  fold tagged. rewrite untagged_rows by assumption. reflexivity.
Qed.

End Tags.

(** C9. On a table that holds 기숙사 and where no other record carries the
    tag 주거, tagging 기숙사 with 주거 succeeds and the rows of that tag are
    then the one pair of 기숙사 and its locator; and a tag that no record
    carries selects no row, so that [show_by_tag] prints that there is
    none. *)
Theorem tag_round_trip (t : Table) (u : str) :
  wf_table t ->
  In (lit "기숙사", u) (map (fun r => (keyword r, url r)) t) ->
  (forall r, In r t -> keyword r <> lit "기숙사" -> tag r <> lit "주거") ->
  (exists db',
     tag_resource (Some t) (lit "기숙사") (lit "주거")
     = (db', [Print (TagOk (lit "기숙사") (lit "주거"))])
     /\ tag_rows db' (lit "주거") = ([(lit "기숙사", u)], [])
     /\ show_by_tag db' (lit "주거")
        = [Print (CatHeader (lit "주거")); Print (CatLine (lit "기숙사") u)])
  /\ (forall (d : Table) (tg : str),
        (forall r, In r d -> tag r <> strip tg) ->
        fst (tag_rows (Some d) (strip tg)) = []
        /\ show_by_tag (Some d) tg
           = snd (tag_rows (Some d) (strip tg)) ++ [Print (CatEmpty (strip tg))]).
Proof.
  intros [Hnd Hok] Hin Hothers. split.
  - apply tag_then_cat; try assumption; vm_compute; reflexivity.
  - intros d tg H. pose proof (cat_unused (strip tg) d H) as E.
    split; [exact E|]. unfold show_by_tag.
    destruct (tag_rows (Some d) (strip tg)) as [rows ev]. simpl in E. subst rows.
    reflexivity.
Qed.

(* ------------------------------------------------------------------ *)
(** * Ranking *)
(* ------------------------------------------------------------------ *)

(** C8. From the seed 도서관, 기숙사, LMS, three searches of LMS and one of
    도서관 leave LMS at 3 and 도서관 at 1: the ranking query with [LIMIT 2]
    returns them in that order, and [top_keywords], whose query has
    [LIMIT 5], prints them first, before 기숙사 at 0.  The same holds when
    the searches are typed at the prompt, where the line is in lower
    case. *)
Theorem ranking_example :
  exists db0 : Db,
    init_db ranking_seed None = inr db0
    /\ (let db := gui_searches db0 [lit "LMS"; lit "LMS"; lit "LMS"; lit "도서관"] in
        select_top 2 db = inr [(lit "LMS", 3); (lit "도서관", 1)]
        /\ top_rows 5 db
           = ([(lit "LMS", 3); (lit "도서관", 1); (lit "기숙사", 0)], [])
        /\ top_keywords db
           = [Print TopHeader; Print (TopLine 1 (lit "LMS") 3);
              Print (TopLine 2 (lit "도서관") 1);
              Print (TopLine 3 (lit "기숙사") 0)])
    /\ main_searches db0 [lit "lms"; lit "lms"; lit "lms"; lit "도서관"]
       = gui_searches db0 [lit "LMS"; lit "LMS"; lit "LMS"; lit "도서관"].
Proof.
  eexists. split; [vm_compute; reflexivity|].
  vm_compute. repeat split.
Qed.

(** The same searches on the seed of the program. *)
Lemma ranking_on_initial_data :
  exists db0 : Db,
    init_db initial_data None = inr db0
    /\ top_rows 5 (gui_searches db0 [lit "LMS"; lit "LMS"; lit "LMS"; lit "도서관"])
       = ([(lit "LMS", 3); (lit "도서관", 1); (lit "장학금", 0);
           (lit "학사일정", 0); (lit "수강신청", 0)], []).
Proof.
  eexists. split.
  - vm_compute. reflexivity.
  - vm_compute. reflexivity.
Qed.

(* ------------------------------------------------------------------ *)
(** * The empty query *)
(* ------------------------------------------------------------------ *)

Lemma patternCompare_pct (P s : str) :
  patternCompare (pct :: P) s
  = patternCompare P s
    || match s with [] => false | _ :: s' => patternCompare (pct :: P) s' end.
Proof. destruct s; reflexivity. Qed.

Lemma patternCompare_any (s : str) : patternCompare [pct] s = true.
Proof.
  induction s as [|c s IH]; [reflexivity|].
  rewrite patternCompare_pct, IH. apply orb_true_r.
Qed.

Lemma patternCompare_any2 (s : str) : patternCompare [pct; pct] s = true.
Proof. rewrite patternCompare_pct, patternCompare_any. reflexivity. Qed.

(** The pattern of the empty query keeps every row. *)
Lemma empty_query_matches_all (t : Table) :
  wf_table t ->
  fst (search_resources (Some t) []) = map (fun r => (keyword r, url r)) t.
Proof.
  intros _. unfold search_resources, select_like. simpl encodable.
  rewrite scan_like_short by (vm_compute; discriminate).
  unfold like_rows. simpl. f_equal. apply filter_all.
  intros r _. apply patternCompare_any2.
Qed.

(** The form does not search for a blank entry. *)
Lemma gui_search_blank (db : Db) (entry : str) :
  forallb isspace entry = true -> gui_search db entry = (db, [ListboxClear]).
Proof.
  intros H. unfold gui_search. rewrite strip_blank by assumption. reflexivity.
Qed.

(** C1. A line of three spaces typed at the prompt of [main] strips to the
    empty text, which is no command, so it is searched: on the seed of the
    program the search returns all twelve records and every count goes
    from 0 to 1; the same entry in the form does nothing. *)
Theorem blank_line_matches_everything :
  exists db0 : Db,
    init_db initial_data None = inr db0
    /\ strip (lit "   ") = []
    /\ is_plain_search (strip (lit "   ")) = true
    /\ fst (search_resources db0 (strip (lit "   "))) = initial_data
    /\ db0 = Some (map (fun p => mkRow (fst p) (snd p) 0 []) initial_data)
    /\ fst (main_search db0 (strip (lit "   ")))
       = Some (map (fun p => mkRow (fst p) (snd p) 1 []) initial_data)
    /\ gui_search db0 (lit "   ") = (db0, [ListboxClear]).
Proof.
  eexists. split; [vm_compute; reflexivity|].
  vm_compute. repeat split.
Qed.

(** The claim of the empty-query guard does not hold of [main]. *)
Lemma blank_line_guard_missing : ~ blank_line_matches_nothing.
Proof.
  intros H.
  destruct (H (Some (map fresh_row ranking_seed)) (lit "   ")) as [E _].
  - apply (init_db_wf ranking_seed None); [vm_compute; reflexivity|].
    repeat constructor.
  - vm_compute; reflexivity.
  - vm_compute in E. discriminate.
Qed.

(* ------------------------------------------------------------------ *)
(** * Failures of the engine *)
(* ------------------------------------------------------------------ *)

(** The parts of the pattern [f"%{query}%"]. *)
Lemma encodable_pattern (q : str) : encodable (pattern_of q) = encodable q.
Proof.
  unfold pattern_of, encodable. simpl. rewrite forallb_app. simpl.
  rewrite andb_true_r. reflexivity.
Qed.

Lemma utf8_len_pattern (q : str) : utf8_len (pattern_of q) = utf8_len q + 2.
Proof.
  assert (H : forall a b, utf8_len (a ++ b) = utf8_len a + utf8_len b).
  { induction a as [|c a IH]; intros b; simpl; [reflexivity|]. rewrite IH. lia. }
  unfold pattern_of. change (pct :: q ++ [pct]) with ([pct] ++ q ++ [pct]).
  rewrite !H. change (utf8_len [pct]) with 1. lia.
Qed.




(* ------------------------------------------------------------------ *)
(** * What [LIKE] matches *)
(* ------------------------------------------------------------------ *)

Ltac split_tests :=
  repeat match goal with
         | |- context [?a <=? ?b] => destruct (Z.leb_spec a b)
         | |- context [?a <? ?b] => destruct (Z.ltb_spec a b)
         | |- context [?a =? ?b] => destruct (Z.eqb_spec a b)
         end.

(** [LIKE] compares two characters as their lower-case forms. *)
Lemma like_char_fold (c c2 : Z) :
  like_char c c2 = (tolower (utf8_read c) =? tolower (utf8_read c2)).
Proof.
  unfold like_char. generalize (utf8_read c) as x, (utf8_read c2) as y.
  intros x y. cbv zeta. unfold tolower.
  destruct (Z.leb_spec 65 x), (Z.leb_spec x 90),
           (Z.leb_spec 65 y), (Z.leb_spec y 90); simpl;
    split_tests; simpl; try reflexivity; exfalso; lia.
Qed.

Lemma like_fold_nil (m : str) : like_fold m = [] -> m = [].
Proof. destruct m; [reflexivity | discriminate]. Qed.

(** A run of literal characters at the head of the pattern has to be, up
    to the case of ASCII letters, the head of the text. *)
Lemma patternCompare_literal (q P : str) :
  forallb literal_char q = true ->
  forall s,
    patternCompare (q ++ P) s = true
    <-> exists m rest, s = m ++ rest /\ like_fold m = like_fold q
                       /\ patternCompare P rest = true.
Proof.
  induction q as [|c q IH]; intros Hq s.
  - simpl. split.
    + intros H. exists [], s. auto.
    + intros [m [rest [-> [E H]]]]. apply like_fold_nil in E. subst m. exact H.
  - simpl in Hq. apply andb_true_iff in Hq. destruct Hq as [Hc Hq].
    unfold literal_char in Hc. rewrite !andb_true_iff, !negb_true_iff in Hc.
    destruct Hc as [[Hp Hu] _]. simpl. rewrite Hp.
    destruct s as [|c2 s].
    + split; [discriminate|]. intros [m [rest [E [F _]]]].
      destruct m; [discriminate F | discriminate E].
    + rewrite Hu. simpl. rewrite like_char_fold, andb_true_iff, Z.eqb_eq, (IH Hq).
      split.
      * intros [Ec [m [rest [-> [F H]]]]]. exists (c2 :: m), rest.
        simpl. rewrite F, Ec. auto.
      * intros [m [rest [E [F H]]]]. destruct m as [|x m]; [discriminate F|].
        simpl in E, F. injection E as -> ->. injection F as Ec F.
        split; [congruence|]. exists m, rest. auto.
Qed.

(** [%] at the head of the pattern lets the rest match from anywhere. *)
Lemma patternCompare_skip (P s : str) :
  patternCompare (pct :: P) s = true
  <-> exists pre rest, s = pre ++ rest /\ patternCompare P rest = true.
Proof.
  induction s as [|c s IH]; rewrite patternCompare_pct, orb_true_iff.
  - split.
    + intros [H|H]; [|discriminate]. exists [], []. auto.
    + intros [pre [rest [E H]]]. symmetry in E. apply app_eq_nil in E.
      destruct E as [_ ->]. auto.
  - rewrite IH. split.
    + intros [H|[pre [rest [-> H]]]].
      * exists [], (c :: s). auto.
      * exists (c :: pre), rest. auto.
    + intros [pre [rest [E H]]]. destruct pre as [|x pre].
      * simpl in E. subst rest. auto.
      * injection E as -> ->. right. exists pre, rest. auto.
Qed.

Lemma substring_like_fold (q s : str) :
  substring (like_fold q) (like_fold s)
  <-> exists pre m rest, s = pre ++ m ++ rest /\ like_fold m = like_fold q.
Proof.
  unfold substring, like_fold. split.
  - intros [A [B E]]. apply map_eq_app in E. destruct E as [pre [mr [-> [_ E]]]].
    apply map_eq_app in E. destruct E as [m [rest [-> [E _]]]].
    exists pre, m, rest. auto.
  - intros [pre [m [rest [-> E]]]].
    exists (like_fold pre), (like_fold rest). rewrite !map_app, E. reflexivity.
Qed.

(** The pattern of a query of literal characters matches the texts that
    hold the query, up to the case of ASCII letters. *)
Lemma pattern_of_literal (q s : str) :
  forallb literal_char q = true ->
  patternCompare (pattern_of q) s = true
  <-> substring (like_fold q) (like_fold s).
Proof.
  intros Hq. unfold pattern_of. rewrite patternCompare_skip, substring_like_fold.
  split.
  - intros [pre [rest [-> H]]]. apply (patternCompare_literal q [pct] Hq) in H.
    destruct H as [m [rest' [-> [E _]]]]. exists pre, m, rest'. auto.
  - intros [pre [m [rest [-> E]]]]. exists pre, (m ++ rest). split; [reflexivity|].
    apply (patternCompare_literal q [pct] Hq). exists m, rest.
    repeat split; auto. apply patternCompare_any.
Qed.

Lemma cstr_literal (q : str) :
  forallb literal_char q = true -> cstr (pattern_of q) = pattern_of q.
Proof.
  intros Hq. unfold pattern_of. simpl. f_equal.
  induction q as [|c q IH]; [reflexivity|].
  simpl in *. apply andb_true_iff in Hq. destruct Hq as [Hc Hq].
  unfold literal_char in Hc. rewrite !andb_true_iff, !negb_true_iff in Hc.
  destruct Hc as [_ ->]. f_equal. auto.
Qed.

Lemma search_resources_plain (t : Table) (q : str) :
  plain_query q ->
  search_resources (Some t) q = (like_rows (pattern_of q) t, []).
Proof.
  intros [Hq [He Hl]]. unfold search_resources, select_like.
  rewrite encodable_pattern, He.
  rewrite scan_like_short by (rewrite utf8_len_pattern; assumption).
  reflexivity.
Qed.

(** The matches of [LMS] for the query [lms], which is not written in it. *)
Lemma lower_case_query_matches : ~ finds_exact_substrings.
Proof.
  intros H.
  destruct (proj1 (H [mkRow (lit "LMS") (lit "https://lms.cbnu.ac.kr/") 0 []]
                     (lit "lms") (lit "LMS") (lit "https://lms.cbnu.ac.kr/")))
    as [r [_ [_ [_ [pre [post E]]]]]].
  - vm_compute. left; reflexivity.
  - vm_compute in E.
    destruct pre as [|a [|b [|c pre]]]; try discriminate E.
    destruct pre; discriminate E.
Qed.

(** [_] in a query stands for any character. *)
Lemma underscore_matches_any_character :
  fst (search_resources (Some [mkRow (lit "LMS") (lit "https://lms.cbnu.ac.kr/") 0 []])
                        (lit "L_S"))
  = [(lit "LMS", lit "https://lms.cbnu.ac.kr/")].
Proof. vm_compute. reflexivity. Qed.

(** C2, as the program has it.  For a query of literal characters (no [%],
    no [_], no NUL, encodable, within the pattern limit), the matches are
    the pairs of the records whose keyword, read up to its first NUL if it
    has one, holds the query as [LIKE] compares texts: up to the case of
    ASCII letters, and with U+FFFE and U+FFFF read as U+FFFD.  All of them
    are returned, in the order of the table. *)
Theorem search_resources_matches (t : Table) (q k u : str) :
  plain_query q ->
  (In (k, u) (fst (search_resources (Some t) q))
   <-> exists r, In r t /\ keyword r = k /\ url r = u
                 /\ substring (like_fold q) (like_fold (cstr k)))
  /\ fst (search_resources (Some t) q)
     = map (fun r => (keyword r, url r))
           (filter (fun r => patternCompare (pattern_of q) (cstr (keyword r))) t).
Proof.
  intros Hp. rewrite (search_resources_plain t q Hp). simpl.
  destruct Hp as [Hq _]. unfold like_rows. rewrite (cstr_literal q Hq).
  split; [|reflexivity].
  rewrite in_map_iff. split.
  - intros [r [E Hr]]. injection E as <- <-. apply filter_In in Hr.
    destruct Hr as [Hin Hm]. exists r. repeat split; auto.
    apply pattern_of_literal; assumption.
  - intros [r [Hin [<- [<- Hs]]]]. exists r. split; [reflexivity|].
    apply filter_In. split; [assumption|]. apply pattern_of_literal; assumption.
Qed.

(* ------------------------------------------------------------------ *)
(** * The recursion of [matching_size] *)
(* ------------------------------------------------------------------ *)

Section Blocks.

Variable pop : Z -> bool.

Lemma scan_b_bound (ai : Z) (i : nat) (bs : str) :
  forall (j before : nat) (prev : list nat) (best : Match),
    (before <= i)%nat ->
    Forall (fun v => (v <= i)%nat) prev ->
    ends_by (S i) best ->
    Forall (fun v => (v <= S i)%nat) (fst (scan_b pop ai i j bs before prev best))
    /\ ends_by (S i) (snd (scan_b pop ai i j bs before prev best)).
Proof.
  induction bs as [|bj bs IH]; intros j before prev best Hb Hp He; simpl.
  - split; [constructor | assumption].
  - assert (Hh : (hd 0%nat prev <= i)%nat).
    { destruct Hp; simpl; [lia | assumption]. }
    assert (Ht : Forall (fun v => (v <= i)%nat) (tl prev)).
    { destruct Hp; simpl; [constructor | assumption]. }
    destruct ((bj =? ai) && negb (pop bj)).
    + match goal with
      | |- context [scan_b pop ai i (S j) bs ?bf ?pv ?bst] =>
        assert (He' : ends_by (S i) bst);
          [| destruct (IH (S j) bf pv bst Hh Ht He') as [H1 H2];
             destruct (scan_b pop ai i (S j) bs bf pv bst)]
      end.
      * destruct (size_of best <? S before)%nat; [|assumption].
        unfold ends_by, size_of. simpl. lia.
      * simpl in *. split; [constructor; [lia | assumption] | assumption].
    + destruct (IH (S j) (hd 0%nat prev) (tl prev) best Hh Ht He) as [H1 H2].
      destruct (scan_b pop ai i (S j) bs (hd 0%nat prev) (tl prev) best).
      simpl in *. split; [constructor; [lia | assumption] | assumption].
Qed.

Lemma scan_a_bound (b : str) (as_ : str) :
  forall (i : nat) (j2len : list nat) (best : Match),
    Forall (fun v => (v <= i)%nat) j2len ->
    ends_by i best ->
    ends_by (i + length as_) (scan_a pop i as_ b j2len best).
Proof.
  induction as_ as [|ai as_ IH]; intros i j2len best Hj He; simpl.
  - unfold ends_by in *. lia.
  - assert (He' : ends_by (S i) best) by (unfold ends_by in *; lia).
    destruct (scan_b_bound ai i b 0%nat 0%nat j2len best (Nat.le_0_l i) Hj He')
      as [H1 H2].
    destruct (scan_b pop ai i 0 b 0 j2len best) as [row best'].
    simpl in H1, H2. replace (i + S (length as_))%nat with (S i + length as_)%nat by lia.
    apply IH; assumption.
Qed.

Lemma common_prefix_le (x y : str) : (common_prefix x y <= length x)%nat.
Proof.
  revert y. induction x as [|c x IH]; intros [|d y]; simpl; try lia.
  destruct (c =? d); [|lia]. specialize (IH y). lia.
Qed.

Lemma extend_bound (a b : str) (m : Match) :
  ends_by (length a) m -> ends_by (length a) (extend a b m).
Proof.
  destruct m as [[i j] k]. unfold ends_by, size_of, extend. simpl. intros H.
  pose proof (common_prefix_le (rev (firstn i a)) (rev (firstn j b))) as Hb.
  rewrite length_rev in Hb. pose proof (firstn_le_length i a) as Hf.
  set (back := common_prefix (rev (firstn i a)) (rev (firstn j b))) in *.
  pose proof (common_prefix_le (skipn (i - back + (k + back)) a)
                               (skipn (j - back + (k + back)) b)) as Hw.
  rewrite length_skipn in Hw. lia.
Qed.

(** The longest match lies within [a]. *)
Lemma find_longest_match_bound (a b : str) :
  ends_by (length a) (find_longest_match pop a b).
Proof.
  unfold find_longest_match. apply extend_bound.
  apply (scan_a_bound b a 0%nat [] (0, 0, 0)%nat).
  - constructor.
  - unfold ends_by, size_of. simpl. lia.
Qed.

(** [matching_size] never runs out of fuel: any fuel above the length of
    [a] gives the same sum. *)
Lemma matching_size_fuel (n : nat) :
  forall (m : nat) (a b : str),
    (length a < n)%nat -> (length a < m)%nat ->
    matching_size n pop a b = matching_size m pop a b.
Proof.
  induction n as [|n IH]; intros m a b Hn Hm; [lia|].
  destruct m as [|m]; [lia|]. simpl.
  pose proof (find_longest_match_bound a b) as Hb.
  destruct (find_longest_match pop a b) as [[i j] k].
  unfold ends_by, size_of in Hb. simpl in Hb.
  destruct (k =? 0)%nat eqn:K; [reflexivity|]. apply Nat.eqb_neq in K.
  f_equal; [f_equal|].
  - destruct ((0 <? i)%nat && (0 <? j)%nat); [|reflexivity].
    pose proof (firstn_le_length i a). apply IH; lia.
  - destruct ((i + k <? length a)%nat && (j + k <? length b)%nat); [|reflexivity].
    apply IH; rewrite length_skipn; lia.
Qed.

End Blocks.

(** [ratio] is the ratio of that sum whatever the fuel above the length. *)
Lemma ratio_fuel (a b : str) (fuel : nat) :
  (length a < fuel)%nat ->
  calculate_ratio (matching_size fuel (popular b) a b) (length a + length b)
  = ratio a b.
Proof.
  intros H. unfold ratio.
  rewrite (matching_size_fuel (popular b) fuel (S (length a))); [reflexivity | lia | lia].
Qed.

(* ------------------------------------------------------------------ *)
(** * Suggestions *)
(* ------------------------------------------------------------------ *)

Lemma str_ltb_irrefl (a : str) : str_ltb a a = false.
Proof.
  induction a as [|x a IH]; simpl; [reflexivity|].
  rewrite Z.ltb_irrefl, Z.eqb_refl, IH. reflexivity.
Qed.

Lemma str_ltb_trans (a b c : str) :
  str_ltb a b = true -> str_ltb b c = true -> str_ltb a c = true.
Proof.
  revert b c. induction a as [|x a IH]; intros [|y b] [|z c]; simpl;
    try discriminate; try reflexivity.
  rewrite !orb_true_iff, !andb_true_iff, !Z.ltb_lt, !Z.eqb_eq.
  intros [H1|[H1 H2]] [H3|[H3 H4]]; try (left; lia).
  right. split; [lia|]. apply (IH b c); assumption.
Qed.

(** The order of the tuples [(score, x)], as a proposition. *)
Lemma scored_ltb_spec (a b : Scored) :
  scored_ltb a b = true
  <-> (fst a < fst b)%Q
      \/ ((fst a == fst b)%Q /\ str_ltb (snd a) (snd b) = true).
Proof.
  unfold scored_ltb. destruct (Qeq_bool (fst a) (fst b)) eqn:E.
  - apply Qeq_bool_iff in E. split.
    + intros H. right. auto.
    + intros [H|[_ H]]; [lra | assumption].
  - apply Qeq_bool_neq in E. rewrite negb_true_iff. split.
    + intros H. left. apply Qnot_le_lt. intros L.
      apply Qle_bool_iff in L. congruence.
    + intros [H|[H _]]; [|contradiction].
      apply not_true_is_false. intros L. apply Qle_bool_iff in L. lra.
Qed.

Lemma scored_ltb_trans (a b c : Scored) :
  scored_ltb a b = true -> scored_ltb b c = true -> scored_ltb a c = true.
Proof.
  rewrite !scored_ltb_spec.
  intros [H1|[H1 H2]] [H3|[H3 H4]]; try (left; lra).
  right. split; [lra|]. apply (str_ltb_trans _ (snd b)); assumption.
Qed.

Lemma scored_ltb_irrefl (a : Scored) : scored_ltb a a = false.
Proof.
  apply not_true_is_false. rewrite scored_ltb_spec.
  intros [H|[_ H]]; [lra|]. rewrite str_ltb_irrefl in H. discriminate.
Qed.

Lemma scored_ltb_asym (a b : Scored) :
  scored_ltb a b = true -> scored_ltb b a = false.
Proof.
  intros H. apply not_true_is_false. intros H'.
  pose proof (scored_ltb_trans _ _ _ H H') as T.
  rewrite scored_ltb_irrefl in T. discriminate.
Qed.

Section Sorting.

Let ge (a b : Scored) : Prop := scored_ltb a b = false.

Lemma place_In (e x : Scored) (l : list Scored) :
  In x (place e l) <-> x = e \/ In x l.
Proof.
  induction l as [|y l IH]; simpl.
  - split; intros [H|H]; auto.
  - destruct (scored_ltb y e); simpl; [|rewrite IH]; intuition auto.
Qed.

Lemma place_length (e : Scored) (l : list Scored) :
  length (place e l) = S (length l).
Proof.
  induction l as [|y l IH]; simpl; [reflexivity|].
  destruct (scored_ltb y e); simpl; [|rewrite IH]; reflexivity.
Qed.

Lemma place_sorted (e : Scored) (l : list Scored) :
  StronglySorted ge l -> StronglySorted ge (place e l).
Proof.
  induction 1 as [|y l Hs IH Hy]; simpl.
  - constructor; constructor.
  - destruct (scored_ltb y e) eqn:E.
    + constructor; [constructor; assumption|].
      constructor; [apply scored_ltb_asym; assumption|].
      rewrite Forall_forall in *. intros z Hz. unfold ge.
      apply not_true_is_false. intros L.
      pose proof (scored_ltb_trans _ _ _ E L) as T.
      rewrite (Hy z Hz) in T. discriminate.
    + constructor; [assumption|].
      rewrite Forall_forall in *. intros z Hz. apply place_In in Hz.
      destruct Hz as [->|Hz]; [exact E | auto].
Qed.

Lemma fold_place_In (l acc : list Scored) (x : Scored) :
  In x (fold_left (fun a e => place e a) l acc) <-> In x l \/ In x acc.
Proof.
  revert acc. induction l as [|e l IH]; intros acc; simpl; [tauto|].
  rewrite IH, place_In. intuition auto.
Qed.

Lemma fold_place_sorted (l acc : list Scored) :
  StronglySorted ge acc ->
  StronglySorted ge (fold_left (fun a e => place e a) l acc).
Proof.
  revert acc. induction l as [|e l IH]; intros acc H; simpl; [assumption|].
  apply IH, place_sorted, H.
Qed.

Lemma sorted_reverse_In (l : list Scored) (x : Scored) :
  In x (sorted_reverse l) <-> In x l.
Proof. unfold sorted_reverse. rewrite fold_place_In. simpl. tauto. Qed.

Lemma sorted_reverse_sorted (l : list Scored) :
  StronglySorted ge (sorted_reverse l).
Proof. apply fold_place_sorted. constructor. Qed.

Lemma firstn_In_of {A} (n : nat) (l : list A) (x : A) :
  In x (firstn n l) -> In x l.
Proof.
  revert n. induction l as [|y l IH]; intros [|n]; simpl; try tauto.
  intros [H|H]; [left; assumption | right; apply (IH n); assumption].
Qed.

Lemma firstn_sorted {A} (R : A -> A -> Prop) (n : nat) (l : list A) :
  StronglySorted R l -> StronglySorted R (firstn n l).
Proof.
  intros H. revert n. induction H as [|x l Hs IH Hx]; intros [|n]; simpl;
    try constructor; auto.
  rewrite Forall_forall in *. intros y Hy. apply Hx.
  apply (firstn_In_of n). exact Hy.
Qed.

End Sorting.

(** A collected tuple carries a possibility and its ratio, and the ratio
    passed the cutoff. *)
Lemma close_candidates_In (word : str) (possibilities : list str) (cutoff : Q)
      (e : Scored) :
  In e (close_candidates word possibilities cutoff) ->
  In (snd e) possibilities
  /\ fst e = ratio (snd e) word
  /\ (cutoff <= ratio (snd e) word)%Q.
Proof.
  induction possibilities as [|x rest IH]; simpl; [tauto|].
  destruct (Qle_bool cutoff (real_quick_ratio x word)
            && Qle_bool cutoff (quick_ratio x word)
            && Qle_bool cutoff (ratio x word)) eqn:T.
  - intros [<-|H].
    + simpl. apply andb_true_iff in T. destruct T as [_ T].
      apply Qle_bool_iff in T. auto.
    + destruct (IH H) as [H1 H2]. auto.
  - intros H. destruct (IH H) as [H1 H2]. auto.
Qed.


Lemma nlargest_In (n : nat) (l : list Scored) (e : Scored) :
  In e (nlargest n l) -> In e l.
Proof.
  unfold nlargest. intros H. apply sorted_reverse_In.
  apply (firstn_In_of n). exact H.
Qed.



(** What the program suggests for that query once seeded. *)
Lemma suggestions_on_initial_data :
  exists db0 : Db,
    init_db initial_data None = inr db0
    /\ fst (search_resources db0 (lit "수강신업지원")) = []
    /\ suggest_keywords db0 (lit "수강신업지원")
       = ([lit "취업지원"; lit "수강신청"], []).
Proof.
  eexists. split.
  - vm_compute. reflexivity.
  - vm_compute. split; reflexivity.
Qed.


(* ------------------------------------------------------------------ *)
(** * The order of the universe does not matter *)
(* ------------------------------------------------------------------ *)

Lemma str_ltb_total (a b : str) :
  str_ltb a b = false -> str_ltb b a = false -> a = b.
Proof.
  revert b. induction a as [|x a IH]; intros [|y b]; simpl;
    try discriminate; try reflexivity.
  rewrite !orb_false_iff, !andb_false_iff, !Z.ltb_ge, !Z.eqb_neq.
  intros [H1 H2] [H3 H4]. assert (x = y) by lia. subst y. f_equal.
  apply IH; [destruct H2 | destruct H4]; congruence.
Qed.

Lemma scored_ltb_antisym (a b : Scored) :
  scored_ltb a b = false -> scored_ltb b a = false ->
  (fst a == fst b)%Q /\ snd a = snd b.
Proof.
  intros H1 H2.
  assert (N1 : ~ (fst a < fst b)%Q).
  { intros L. assert (scored_ltb a b = true) by (apply scored_ltb_spec; auto).
    congruence. }
  assert (N2 : ~ (fst b < fst a)%Q).
  { intros L. assert (scored_ltb b a = true) by (apply scored_ltb_spec; auto).
    congruence. }
  assert (E : (fst a == fst b)%Q) by lra.
  split; [exact E|]. apply str_ltb_total; apply not_true_is_false; intros L.
  - assert (scored_ltb a b = true) by (apply scored_ltb_spec; auto). congruence.
  - assert (scored_ltb b a = true).
    { apply scored_ltb_spec. right. split; [symmetry; exact E | exact L]. }
    congruence.
Qed.

Section Order.

Variable q : str.

Let scored (x : str) : Scored := (ratio x q, x).
Let ge (a b : Scored) : Prop := scored_ltb a b = false.

Lemma place_perm (e : Scored) (l : list Scored) : Permutation (e :: l) (place e l).
Proof.
  induction l as [|x l IH]; simpl; [reflexivity|].
  destruct (scored_ltb x e); [reflexivity|].
  rewrite perm_swap. apply perm_skip. exact IH.
Qed.

Lemma sorted_reverse_perm (l : list Scored) : Permutation l (sorted_reverse l).
Proof.
  unfold sorted_reverse.
  assert (H : forall acc, Permutation (l ++ acc)
                            (fold_left (fun a e => place e a) l acc)).
  { induction l as [|e l IH]; intros acc; simpl; [reflexivity|].
    rewrite <- IH. rewrite <- place_perm. apply Permutation_middle. }
  specialize (H []). rewrite app_nil_r in H. exact H.
Qed.

(** Two sorted lists of scored keywords with the same elements are equal. *)
Lemma sorted_perm_eq (l1 : list Scored) :
  forall l2,
    (forall e, In e l1 -> e = scored (snd e)) ->
    StronglySorted ge l1 -> StronglySorted ge l2 -> Permutation l1 l2 ->
    l1 = l2.
Proof.
  induction l1 as [|x l1 IH]; intros l2 Hc S1 S2 P.
  - apply Permutation_nil in P. auto.
  - destruct l2 as [|y l2].
    { symmetry in P. apply Permutation_nil in P. discriminate. }
    inversion S1 as [|? ? S1' F1]; subst. inversion S2 as [|? ? S2' F2]; subst.
    rewrite Forall_forall in F1, F2.
    assert (Hy : In y (x :: l1)).
    { apply (Permutation_in y (Permutation_sym P)). left; reflexivity. }
    assert (Hx : In x (y :: l2)).
    { apply (Permutation_in x P). left; reflexivity. }
    assert (E : x = y).
    { destruct Hy as [Hy|Hy]; [assumption|].
      destruct Hx as [Hx|Hx]; [congruence|].
      destruct (scored_ltb_antisym x y (F1 y Hy) (F2 x Hx)) as [_ E].
      rewrite (Hc x (or_introl eq_refl)), (Hc y (or_intror Hy)), E. reflexivity. }
    subst y. f_equal. apply IH; auto.
    + intros e He. apply Hc. right; assumption.
    + apply (Permutation_cons_inv P).
Qed.

Lemma close_candidates_map (universe : list str) (cutoff : Q) :
  close_candidates q universe cutoff
  = map scored
        (filter (fun x => Qle_bool cutoff (real_quick_ratio x q)
                          && Qle_bool cutoff (quick_ratio x q)
                          && Qle_bool cutoff (ratio x q)) universe).
Proof.
  induction universe as [|x rest IH]; simpl; [reflexivity|].
  destruct (Qle_bool cutoff (real_quick_ratio x q)
            && Qle_bool cutoff (quick_ratio x q)
            && Qle_bool cutoff (ratio x q)); simpl; rewrite IH; reflexivity.
Qed.

Lemma filter_perm {A} (f : A -> bool) (l l' : list A) :
  Permutation l l' -> Permutation (filter f l) (filter f l').
Proof.
  induction 1 as [|x l l' P IH|x y l|l l' l'' P1 IH1 P2 IH2]; simpl.
  - constructor.
  - destruct (f x); [apply perm_skip|]; assumption.
  - destruct (f x), (f y); try reflexivity. apply perm_swap.
  - etransitivity; eassumption.
Qed.

(** The suggestions depend on which keywords the universe holds, not on
    the order in which it lists them. *)
Lemma get_close_matches_perm (universe universe' : list str) (n : nat) (cutoff : Q) :
  Permutation universe universe' ->
  get_close_matches q universe n cutoff = get_close_matches q universe' n cutoff.
Proof.
  intros P. unfold get_close_matches, nlargest. f_equal. f_equal.
  apply sorted_perm_eq.
  - intros e He. apply (proj1 (sorted_reverse_In _ _)) in He.
    rewrite close_candidates_map in He. apply in_map_iff in He.
    destruct He as [x [<- _]]. reflexivity.
  - apply sorted_reverse_sorted.
  - apply sorted_reverse_sorted.
  - rewrite <- !sorted_reverse_perm, !close_candidates_map.
    apply Permutation_map, filter_perm, P.
Qed.

End Order.

(* ------------------------------------------------------------------ *)
(** * The statements at work on the seed of the ranking example *)
(* ------------------------------------------------------------------ *)

Lemma ranking_table_wf : wf_table (map fresh_row ranking_seed).
Proof.
  apply (init_db_wf ranking_seed None (Some (map fresh_row ranking_seed))).
  - vm_compute. reflexivity.
  - repeat constructor.
Qed.

Lemma lms_is_plain : plain_query (lit "lms").
Proof.
  split; [reflexivity|]. split; [reflexivity|]. vm_compute. discriminate.
Qed.

Lemma search_resources_matches_witness :
  plain_query (lit "lms")
  /\ (In (lit "LMS", lit "https://lms.cbnu.ac.kr/")
         (fst (search_resources (Some (map fresh_row ranking_seed)) (lit "lms")))
      <-> exists r, In r (map fresh_row ranking_seed)
                    /\ keyword r = lit "LMS"
                    /\ url r = lit "https://lms.cbnu.ac.kr/"
                    /\ substring (like_fold (lit "lms"))
                                 (like_fold (cstr (lit "LMS")))).
Proof.
  split; [exact lms_is_plain|].
  exact (proj1 (search_resources_matches
                  (map fresh_row ranking_seed) (lit "lms") (lit "LMS")
                  (lit "https://lms.cbnu.ac.kr/") lms_is_plain)).
Defined.




Lemma init_db_reseeds_witness :
  seed_ok [(lit "도서관", lit "https://a"); (lit "기숙사", lit "https://b");
           (lit "도서관", lit "https://c")]
  /\ exists db',
       init_db [(lit "도서관", lit "https://a"); (lit "기숙사", lit "https://b");
                (lit "도서관", lit "https://c")] None = inr db'
       /\ select_all db' = inr [(lit "도서관", lit "https://a", 0, []);
                               (lit "기숙사", lit "https://b", 0, [])].
Proof.
  assert (S : seed_ok [(lit "도서관", lit "https://a"); (lit "기숙사", lit "https://b");
                       (lit "도서관", lit "https://c")])
    by (repeat constructor).
  split; [exact S|].
  destruct (init_db_reseeds _ None S) as [db' [H1 [H2 _]]].
  exists db'. split; [exact H1|]. rewrite H2. vm_compute. reflexivity.
Defined.

Lemma tag_round_trip_witness :
  wf_table (map fresh_row ranking_seed)
  /\ exists db',
       tag_resource (Some (map fresh_row ranking_seed)) (lit "기숙사") (lit "주거")
       = (db', [Print (TagOk (lit "기숙사") (lit "주거"))])
       /\ tag_rows db' (lit "주거") = ([(lit "기숙사", lit "https://b")], []).
Proof.
  split; [exact ranking_table_wf|].
  destruct (tag_round_trip (map fresh_row ranking_seed) (lit "https://b")
                           ranking_table_wf) as [[db' [H1 [H2 _]]] _].
  - right; left; reflexivity.
  - intros r Hin _. simpl in Hin.
    destruct Hin as [<-|[<-|[<-|[]]]]; vm_compute; discriminate.
  - exists db'. split; assumption.
Defined.

(* ------------------------------------------------------------------ *)
(** * Deleting a keyword *)
(* ------------------------------------------------------------------ *)

Lemma search_resources_sub (db : Db) (q k u : str) :
  In (k, u) (fst (search_resources db q)) ->
  exists t r, db = Some t /\ In r t /\ keyword r = k /\ url r = u.
Proof.
  destruct db as [t|]; [|intros []].
  destruct (search_resources_rows t q) as [keep E]. rewrite E.
  intros H. apply in_map_iff in H. destruct H as [r [Hr Hin]].
  injection Hr as <- <-. apply filter_In in Hin. exists t, r. tauto.
Qed.


Lemma rowcount_zero (t : Table) (kw : str) :
  ~ In kw (map keyword t) ->
  filter (fun r => str_eqb (keyword r) kw) t = []
  /\ filter (fun r => negb (str_eqb (keyword r) kw)) t = t.
Proof.
  intros H. induction t as [|r t IH]; simpl; [auto|].
  simpl in H. destruct (str_eqb (keyword r) kw) eqn:E.
  - apply str_eqb_eq in E. tauto.
  - simpl. destruct IH as [I1 I2]; [tauto|]. rewrite I1, I2. auto.
Qed.



(** X2. Adding a keyword that no record carries and deleting it again
    gives back the table as it was, rows, counts and tags. *)
Theorem add_then_delete (t : Table) (kw_line url_line : str) :
  encodable (strip kw_line) = true ->
  encodable (strip url_line) = true ->
  ~ In (strip kw_line) (map keyword t) ->
  fst (delete_resource (fst (add_resource (Some t) kw_line url_line)) kw_line)
  = Some t.
Proof.
  intros Hk Hu Hin. unfold add_resource.
  rewrite insert_absent by assumption. simpl.
  unfold delete_resource, delete_where. rewrite Hk. simpl.
  rewrite filter_app. simpl. rewrite str_eqb_refl. simpl.
  destruct (rowcount_zero t (strip kw_line) Hin) as [_ E2].
  rewrite E2, app_nil_r. reflexivity.
Qed.

Lemma add_then_delete_witness :
  encodable (strip (lit "식당 ")) = true
  /\ encodable (strip (lit "https://d")) = true
  /\ ~ In (strip (lit "식당 ")) (map keyword (map fresh_row ranking_seed))
  /\ fst (delete_resource
            (fst (add_resource (Some (map fresh_row ranking_seed))
                               (lit "식당 ") (lit "https://d")))
            (lit "식당 "))
     = Some (map fresh_row ranking_seed).
Proof.
  assert (N : ~ In (strip (lit "식당 ")) (map keyword (map fresh_row ranking_seed))).
  { intros H. simpl in H. destruct H as [H|[H|[H|[]]]]; vm_compute in H; discriminate. }
  split; [reflexivity|]. split; [reflexivity|]. split; [exact N|].
  exact (add_then_delete (map fresh_row ranking_seed) (lit "식당 ") (lit "https://d")
                         eq_refl eq_refl N).
Defined.

(* ------------------------------------------------------------------ *)
(** * Queries with any characters *)
(* ------------------------------------------------------------------ *)

Lemma cstr_nul_free (s : str) : nul_free s = true -> cstr s = s.
Proof.
  induction s as [|c s IH]; simpl; [reflexivity|].
  rewrite andb_true_iff, negb_true_iff. intros [-> H]. f_equal. auto.
Qed.

Lemma nul_free_pattern (q : str) : nul_free (pattern_of q) = nul_free q.
Proof.
  unfold pattern_of, nul_free. simpl. rewrite forallb_app. simpl.
  rewrite andb_true_r. reflexivity.
Qed.

(** A pattern matches the text it is written with: a wildcard matches the
    wildcard character too. *)
Lemma patternCompare_self (q P rest : str) :
  patternCompare P rest = true -> patternCompare (q ++ P) (q ++ rest) = true.
Proof.
  intros H. induction q as [|c q IH]; [exact H|].
  destruct (c =? pct) eqn:E.
  - apply Z.eqb_eq in E. subst c. simpl app. apply patternCompare_skip.
    exists [pct], (q ++ rest). auto.
  - simpl. rewrite E, IH, like_char_fold, Z.eqb_refl.
    rewrite orb_true_r. reflexivity.
Qed.

Lemma pattern_of_self (q pre post : str) :
  patternCompare (pattern_of q) (pre ++ q ++ post) = true.
Proof.
  unfold pattern_of. apply patternCompare_skip. exists pre, (q ++ post).
  split; [reflexivity|]. apply patternCompare_self, patternCompare_any.
Qed.

Lemma search_resources_within (t : Table) (q : str) :
  encodable q = true -> utf8_len q + 2 <= like_limit ->
  search_resources (Some t) q = (like_rows (pattern_of q) t, []).
Proof.
  intros He Hl. unfold search_resources, select_like.
  rewrite encodable_pattern, He.
  rewrite scan_like_short by (rewrite utf8_len_pattern; assumption).
  reflexivity.
Qed.

(** X3. Whatever characters the query holds, wildcards included, a record
    whose keyword holds the query as it is written is among the matches
    (for a query without NUL that the engine accepts; the keyword is read
    up to its first NUL). *)
Theorem written_query_is_found (t : Table) (q : str) (r : Row) :
  encodable q = true ->
  utf8_len q + 2 <= like_limit ->
  nul_free q = true ->
  In r t ->
  substring q (cstr (keyword r)) ->
  In (keyword r, url r) (fst (search_resources (Some t) q)).
Proof.
  intros He Hl Hn Hin [pre [post Hs]].
  rewrite search_resources_within by assumption. simpl. unfold like_rows.
  apply in_map_iff. exists r. split; [reflexivity|].
  apply filter_In. split; [assumption|].
  rewrite cstr_nul_free by (rewrite nul_free_pattern; assumption).
  rewrite Hs. apply pattern_of_self.
Qed.

Lemma written_query_is_found_witness :
  In (lit "a_b%c", lit "https://e")
     (fst (search_resources
             (Some [mkRow (lit "axb") (lit "https://d") 0 [];
                    mkRow (lit "a_b%c") (lit "https://e") 0 []])
             (lit "_b%"))).
Proof.
  apply (written_query_is_found
           [mkRow (lit "axb") (lit "https://d") 0 [];
            mkRow (lit "a_b%c") (lit "https://e") 0 []]
           (lit "_b%") (mkRow (lit "a_b%c") (lit "https://e") 0 [])).
  - reflexivity.
  - vm_compute. discriminate.
  - reflexivity.
  - right; left; reflexivity.
  - exists (lit "a"), (lit "c"). vm_compute. reflexivity.
Defined.



(* ------------------------------------------------------------------ *)
(** * The case of the query *)
(* ------------------------------------------------------------------ *)

Lemma tolower_idem (c : Z) : tolower (tolower c) = tolower c.
Proof.
  unfold tolower.
  destruct (Z.leb_spec 65 c), (Z.leb_spec c 90); simpl;
    split_tests; simpl; try reflexivity; exfalso; lia.
Qed.

Lemma tolower_letter (c : Z) : 65 <= c <= 90 -> tolower c = c + 32.
Proof.
  intros H. unfold tolower.
  destruct (Z.leb_spec 65 c), (Z.leb_spec c 90); simpl; try reflexivity; lia.
Qed.

Lemma tolower_other (c : Z) : ~ 65 <= c <= 90 -> tolower c = c.
Proof.
  intros H. unfold tolower.
  destruct (Z.leb_spec 65 c), (Z.leb_spec c 90); simpl; try reflexivity; lia.
Qed.

Lemma utf8_read_small (c : Z) : c < 65534 -> utf8_read c = c.
Proof.
  intros H. unfold utf8_read.
  destruct (Z.eqb_spec c 65534), (Z.eqb_spec c 65535); simpl; try reflexivity; lia.
Qed.

Lemma utf8_read_tolower (c : Z) :
  tolower (utf8_read (tolower c)) = tolower (utf8_read c).
Proof.
  destruct (Z_le_dec 65 c) as [L|L]; [destruct (Z_le_dec c 90) as [U|U]|].
  - rewrite (tolower_letter c) by lia.
    rewrite (utf8_read_small (c + 32)), (utf8_read_small c) by lia.
    rewrite (tolower_letter c) by lia. apply tolower_other. lia.
  - rewrite (tolower_other c) by lia. reflexivity.
  - rewrite (tolower_other c) by lia. reflexivity.
Qed.

Lemma tolower_special (c : Z) :
  (tolower c =? pct) = (c =? pct) /\ (tolower c =? und) = (c =? und)
  /\ (tolower c =? 0) = (c =? 0).
Proof.
  unfold tolower, pct, und.
  destruct (Z.leb_spec 65 c), (Z.leb_spec c 90); simpl; auto.
  repeat split; split_tests; try reflexivity; exfalso; lia.
Qed.

Lemma patternCompare_fold (P : str) :
  forall s, patternCompare (fold_case P) s = patternCompare P s.
Proof.
  induction P as [|c P IH]; intros s; [reflexivity|].
  destruct (tolower_special c) as [Hp [Hu _]].
  unfold fold_case in *. simpl map.
  destruct (c =? pct) eqn:E.
  - apply Z.eqb_eq in Hp. rewrite Hp. apply Z.eqb_eq in E. subst c.
    induction s as [|x s IHs].
    + rewrite !patternCompare_pct, IH. reflexivity.
    + rewrite (patternCompare_pct (map tolower P)), (patternCompare_pct P).
      rewrite IH, IHs. reflexivity.
  - simpl. rewrite Hp, E. destruct s as [|x s]; [reflexivity|].
    rewrite Hu, !like_char_fold, utf8_read_tolower, IH. reflexivity.
Qed.

Lemma cstr_fold (s : str) : cstr (fold_case s) = fold_case (cstr s).
Proof.
  unfold fold_case. induction s as [|c s IH]; simpl; [reflexivity|].
  destruct (tolower_special c) as [_ [_ H0]]. rewrite H0.
  destruct (c =? 0); simpl; [reflexivity|]. rewrite IH. reflexivity.
Qed.

Lemma is_scalar_fold (c : Z) : is_scalar (tolower c) = is_scalar c.
Proof.
  unfold is_scalar, tolower.
  destruct (Z.leb_spec 65 c), (Z.leb_spec c 90); simpl; try reflexivity.
  split_tests; simpl; try reflexivity; exfalso; lia.
Qed.

Lemma encodable_fold (s : str) : encodable (fold_case s) = encodable s.
Proof.
  unfold encodable, fold_case. induction s as [|c s IH]; simpl; [reflexivity|].
  rewrite is_scalar_fold, IH. reflexivity.
Qed.

Lemma utf8_len_fold (s : str) : utf8_len (fold_case s) = utf8_len s.
Proof.
  unfold fold_case. induction s as [|c s IH]; simpl; [reflexivity|].
  rewrite IH. f_equal. unfold utf8_width, tolower.
  destruct (Z.leb_spec 65 c), (Z.leb_spec c 90); simpl; try reflexivity.
  split_tests; simpl; try reflexivity; exfalso; lia.
Qed.

Lemma pattern_of_fold (q : str) : pattern_of (fold_case q) = fold_case (pattern_of q).
Proof.
  unfold pattern_of, fold_case. simpl. rewrite map_app. reflexivity.
Qed.

Lemma scan_like_fold (P : str) (t : Table) :
  scan_like (fold_case P) t = scan_like P t.
Proof.
  induction t as [|r t IH]; simpl; [reflexivity|].
  unfold like. rewrite utf8_len_fold, cstr_fold, patternCompare_fold, IH.
  reflexivity.
Qed.

(** X5. The case of the ASCII letters of a query changes nothing: the
    query and the query with its letters A-Z put in lower case get the
    same matches, and the same error if any.  So the lower case in which
    [main] puts the line does not lose matches on such letters. *)
Theorem query_case_is_ignored (db : Db) (q : str) :
  search_resources db (fold_case q) = search_resources db q.
Proof.
  unfold search_resources, select_like. destruct db as [t|]; [|reflexivity].
  rewrite pattern_of_fold, encodable_fold, scan_like_fold. reflexivity.
Qed.

(* ------------------------------------------------------------------ *)
(** * What a search shows *)
(* ------------------------------------------------------------------ *)

Lemma opened_app (a b : list Event) : opened (a ++ b) = opened a ++ opened b.
Proof.
  induction a as [|e a IH]; simpl; [reflexivity|].
  destruct e; simpl; rewrite ?IH; reflexivity.
Qed.

Lemma logged_app (a b : list Event) : logged (a ++ b) = logged a ++ logged b.
Proof.
  induction a as [|e a IH]; simpl; [reflexivity|].
  destruct e; simpl; rewrite ?IH; reflexivity.
Qed.

Lemma update_count_quiet (db : Db) (kw : str) :
  opened (snd (update_count db kw)) = [] /\ logged (snd (update_count db kw)) = [].
Proof.
  unfold update_count. destruct (update_count_where kw db); split; reflexivity.
Qed.

Lemma search_resources_quiet (db : Db) (q : str) :
  opened (snd (search_resources db q)) = []
  /\ logged (snd (search_resources db q)) = [].
Proof.
  unfold search_resources. destruct (select_like (pattern_of q) db); split; reflexivity.
Qed.

Lemma suggest_keywords_quiet (db : Db) (q : str) :
  opened (snd (suggest_keywords db q)) = []
  /\ logged (snd (suggest_keywords db q)) = [].
Proof.
  unfold suggest_keywords. destruct (select_keywords db); split; reflexivity.
Qed.

Lemma suggestions_quiet (l : list str) :
  opened (map ListboxSuggestion l) = [] /\ logged (map ListboxSuggestion l) = [].
Proof. induction l as [|x l [I1 I2]]; simpl; auto. Qed.

Lemma main_matches_shown (matches : list (str * str)) :
  forall db, opened (snd (main_matches db matches)) = map snd matches
             /\ logged (snd (main_matches db matches)) = [].
Proof.
  induction matches as [|[kw u] rest IH]; intros db; simpl; [auto|].
  destruct (update_count_quiet db kw) as [O L].
  destruct (update_count db kw) as [db1 ev1]. simpl in O, L.
  destruct (IH db1) as [O2 L2].
  destruct (main_matches db1 rest) as [db2 ev2]. simpl in *.
  rewrite opened_app, logged_app, O, L. simpl. rewrite O2, L2. auto.
Qed.

Lemma gui_matches_shown (matches : list (str * str)) :
  forall db, opened (snd (gui_matches db matches)) = map snd matches
             /\ logged (snd (gui_matches db matches)) = [].
Proof.
  induction matches as [|[kw u] rest IH]; intros db; simpl; [auto|].
  destruct (update_count_quiet db kw) as [O L].
  destruct (update_count db kw) as [db1 ev1]. simpl in O, L.
  destruct (IH db1) as [O2 L2].
  destruct (gui_matches db1 rest) as [db2 ev2]. simpl in *.
  rewrite opened_app, logged_app, O, L. simpl. rewrite O2, L2. auto.
Qed.

Lemma main_search_shown (db : Db) (cmd : str) :
  opened (snd (main_search db cmd)) = map snd (fst (search_resources db cmd))
  /\ logged (snd (main_search db cmd)) = [cmd].
Proof.
  unfold main_search.
  destruct (search_resources_quiet db cmd) as [O0 L0].
  destruct (search_resources db cmd) as [[|m ms] ev0]; simpl in O0, L0.
  - destruct (suggest_keywords_quiet db cmd) as [O1 L1].
    destruct (suggest_keywords db cmd) as [sugg ev1]. simpl in *.
    rewrite !opened_app, !logged_app, O0, L0, O1, L1.
    destruct sugg; auto.
  - destruct (main_matches_shown (m :: ms) db) as [O L].
    destruct (main_matches db (m :: ms)) as [db' ev]. simpl in O, L. simpl fst.
    simpl snd. simpl. rewrite opened_app, logged_app, O0, L0, O, L. auto.
Qed.

Lemma gui_search_shown (db : Db) (entry : str) :
  opened (snd (gui_search db entry))
  = match strip entry with
    | [] => []
    | _ :: _ => map snd (fst (search_resources db (strip entry)))
    end
  /\ logged (snd (gui_search db entry)) = [].
Proof.
  unfold gui_search. destruct (strip entry) as [|c q]; [auto|].
  destruct (search_resources_quiet db (c :: q)) as [O0 L0].
  destruct (search_resources db (c :: q)) as [[|m ms] ev0]; simpl in O0, L0.
  - destruct (suggest_keywords_quiet db (c :: q)) as [O1 L1].
    destruct (suggest_keywords db (c :: q)) as [sugg ev1]. simpl in *.
    destruct (suggestions_quiet sugg) as [O2 L2].
    rewrite !opened_app, !logged_app. simpl.
    rewrite !opened_app, !logged_app, O0, L0, O1, L1, O2, L2. auto.
  - destruct (gui_matches_shown (m :: ms) db) as [O L].
    destruct (gui_matches db (m :: ms)) as [db' ev]. simpl in O, L. simpl fst.
    simpl snd. simpl. rewrite opened_app, logged_app, O0, L0, O, L. auto.
Qed.


(** X7. A line searched at the prompt of [main] is written to the history
    once, whether it matches or not and even when the statement fails; a
    search in the form writes nothing to the history. *)
Theorem history_is_written_by_main_only (db : Db) (cmd entry : str) :
  logged (snd (main_search db cmd)) = [cmd]
  /\ logged (snd (gui_search db entry)) = [].
Proof.
  split; [apply main_search_shown | apply gui_search_shown].
Qed.

(** X8. The form does not search for an entry that is empty or made of
    white space: it clears the list box and stops, without a statement, a
    count or a page. *)
Theorem blank_entry_is_ignored (db : Db) (entry : str) :
  forallb isspace entry = true -> gui_search db entry = (db, [ListboxClear]).
Proof.
  intros H. unfold gui_search. rewrite strip_blank by assumption. reflexivity.
Qed.

Lemma blank_entry_is_ignored_witness :
  forallb isspace (lit "   ") = true
  /\ gui_search (Some (map fresh_row ranking_seed)) (lit "   ")
     = (Some (map fresh_row ranking_seed), [ListboxClear]).
Proof.
  split; [reflexivity|].
  exact (blank_entry_is_ignored (Some (map fresh_row ranking_seed)) (lit "   ")
                                eq_refl).
Defined.

(** X9. For an entry that is not blank, the form makes the changes to the
    table that the prompt of [main] makes for the stripped entry, and opens
    the same pages. *)
Theorem form_and_prompt_agree (db : Db) (entry : str) :
  strip entry <> [] ->
  fst (gui_search db entry) = fst (main_search db (strip entry))
  /\ opened (snd (gui_search db entry))
     = opened (snd (main_search db (strip entry))).
Proof.
  intros H. split; [apply gui_search_db; assumption|].
  destruct (gui_search_shown db entry) as [O _].
  destruct (main_search_shown db (strip entry)) as [O' _].
  rewrite O, O'. destruct (strip entry); [congruence | reflexivity].
Qed.

Lemma form_and_prompt_agree_witness :
  strip (lit " LMS ") <> []
  /\ fst (gui_search (Some (map fresh_row ranking_seed)) (lit " LMS "))
     = fst (main_search (Some (map fresh_row ranking_seed)) (strip (lit " LMS "))).
Proof.
  assert (N : strip (lit " LMS ") <> []) by (vm_compute; discriminate).
  split; [exact N|].
  exact (proj1 (form_and_prompt_agree (Some (map fresh_row ranking_seed))
                                      (lit " LMS ") N)).
Defined.

(* ------------------------------------------------------------------ *)
(** * The ranking of any table *)
(* ------------------------------------------------------------------ *)

Section Ranking.

Let above (a b : Row) : Prop := count b <= count a.

Lemma place_desc_perm (r : Row) (l : list Row) : Permutation (r :: l) (place_desc r l).
Proof.
  induction l as [|x l IH]; simpl; [reflexivity|].
  destruct (count x <? count r); [reflexivity|].
  rewrite perm_swap. apply perm_skip. exact IH.
Qed.

Lemma order_by_count_desc_perm (t : Table) : Permutation t (order_by_count_desc t).
Proof.
  unfold order_by_count_desc.
  assert (H : forall acc, Permutation (t ++ acc)
                            (fold_left (fun a r => place_desc r a) t acc)).
  { induction t as [|r t IH]; intros acc; simpl; [reflexivity|].
    rewrite <- IH. rewrite <- place_desc_perm. apply Permutation_middle. }
  specialize (H []). rewrite app_nil_r in H. exact H.
Qed.

Lemma place_desc_sorted (r : Row) (l : list Row) :
  StronglySorted above l -> StronglySorted above (place_desc r l).
Proof.
  induction 1 as [|x l Hs IH Hx]; simpl.
  - constructor; constructor.
  - destruct (Z.ltb_spec (count x) (count r)) as [L|L].
    + constructor; [constructor; assumption|].
      constructor; [unfold above; lia|].
      rewrite Forall_forall in *. intros y Hy. specialize (Hx y Hy).
      unfold above in *. lia.
    + constructor; [assumption|].
      rewrite Forall_forall in *. intros y Hy.
      apply (Permutation_in y (Permutation_sym (place_desc_perm r l))) in Hy.
      destruct Hy as [<-|Hy]; [unfold above; lia | auto].
Qed.

Lemma order_by_count_desc_sorted (t : Table) :
  StronglySorted above (order_by_count_desc t).
Proof.
  unfold order_by_count_desc.
  assert (H : forall acc, StronglySorted above acc ->
                          StronglySorted above (fold_left (fun a r => place_desc r a) t acc)).
  { induction t as [|r t IH]; intros acc Ha; simpl; [assumption|].
    apply IH, place_desc_sorted, Ha. }
  apply H. constructor.
Qed.

Lemma sorted_cut {A} (R : A -> A -> Prop) (n : nat) (l : list A) :
  StronglySorted R l ->
  forall x y, In x (firstn n l) -> In y (skipn n l) -> R x y.
Proof.
  intros H. revert n. induction H as [|a l Hs IH Ha]; intros [|n] x y; simpl;
    try tauto.
  intros [<-|Hx] Hy.
  - rewrite Forall_forall in Ha. apply Ha.
    rewrite <- (firstn_skipn n l). apply in_or_app. right; assumption.
  - apply (IH n); assumption.
Qed.

(** X10. The ranking of [top_keywords], for any table and any limit: the
    rows fetched are records of the table, as many as the limit allows,
    by descending count, and no record left out has a count above one
    that is listed.  With its limit of 5, [top_keywords] prints them
    numbered from 1, or that there is none when the table is empty. *)
Theorem top_rows_ranked (t : Table) (n : nat) :
  exists listed rest,
    top_rows n (Some t) = (map (fun r => (keyword r, count r)) listed, [])
    /\ Permutation t (listed ++ rest)
    /\ length listed = Nat.min n (length t)
    /\ StronglySorted (fun a b => count b <= count a) listed
    /\ (forall a b, In a listed -> In b rest -> count b <= count a)
    /\ (n = 5%nat ->
        top_keywords (Some t)
        = match listed with
          | [] => [Print TopEmpty]
          | _ :: _ =>
            Print TopHeader
              :: top_lines 1 (map (fun r => (keyword r, count r)) listed)
          end).
Proof.
  exists (firstn n (order_by_count_desc t)), (skipn n (order_by_count_desc t)).
  split; [reflexivity|]. split.
  { rewrite firstn_skipn. apply order_by_count_desc_perm. }
  split.
  { rewrite length_firstn.
    rewrite (Permutation_length (order_by_count_desc_perm t)). reflexivity. }
  split.
  { apply firstn_sorted, order_by_count_desc_sorted. }
  split.
  { intros a b Ha Hb.
    apply (sorted_cut above n _ (order_by_count_desc_sorted t) a b Ha Hb). }
  intros ->. unfold top_keywords, top_rows, select_top.
  generalize (firstn 5 (order_by_count_desc t)). intros [|x l]; reflexivity.
Qed.

End Ranking.

(* ------------------------------------------------------------------ *)
(** * Tagging, again *)
(* ------------------------------------------------------------------ *)






(* ------------------------------------------------------------------ *)
(** * Counts over a session *)
(* ------------------------------------------------------------------ *)

Lemma add_one_up (c : Z) : c <= add_one c.
Proof.
  unfold add_one. destruct ((- 2 ^ 63 <=? c) && (c <? 2 ^ 63)); lia.
Qed.

Lemma main_matches_up (matches : list (str * str)) :
  forall db k c,
    usage_count db k = Some c ->
    exists c', usage_count (fst (main_matches db matches)) k = Some c' /\ c <= c'.
Proof.
  induction matches as [|[kw u] rest IH]; intros db k c H; simpl.
  - exists c. split; [assumption | lia].
  - assert (H1 : exists c1, usage_count (fst (update_count db kw)) k = Some c1 /\ c <= c1).
    { rewrite update_count_db. destruct db as [t|]; [|discriminate].
      destruct (encodable kw); [|exists c; split; [assumption | lia]].
      rewrite usage_count_bump_where, H. simpl.
      pose proof (add_one_up c).
      destruct (str_eqb k kw); eexists; split; try reflexivity; lia. }
    destruct H1 as [c1 [H1 L1]].
    destruct (update_count db kw) as [db1 ev1]. simpl in H1.
    destruct (IH db1 k c1 H1) as [c' [H' L']].
    destruct (main_matches db1 rest) as [db2 ev2]. simpl in *.
    exists c'. split; [assumption | lia].
Qed.

Lemma usage_count_snoc (t : Table) (r : Row) (k : str) (c : Z) :
  usage_count (Some t) k = Some c -> usage_count (Some (t ++ [r])) k = Some c.
Proof.
  simpl. induction t as [|x t IH]; simpl; [discriminate|].
  destruct (str_eqb (keyword x) k); [auto | exact IH].
Qed.

Lemma usage_count_retag (t : Table) (kw tg k : str) :
  usage_count (Some (map (fun r => if str_eqb (keyword r) kw then retag tg r else r) t)) k
  = usage_count (Some t) k.
Proof.
  simpl. induction t as [|x t IH]; simpl; [reflexivity|].
  destruct (str_eqb (keyword x) kw); simpl;
    destruct (str_eqb (keyword x) k); simpl; auto.
Qed.

Lemma step_up (db : Db) (o : Op) (k : str) (c : Z) :
  is_delete o = false ->
  usage_count db k = Some c ->
  exists c', usage_count (step db o) k = Some c' /\ c <= c'.
Proof.
  intros Ho H. destruct o as [cmd|entry|kl ul|kl|kl gl]; simpl in *;
    try discriminate.
  - rewrite main_search_db. apply main_matches_up. assumption.
  - destruct (strip entry) as [|x s] eqn:E.
    + unfold gui_search. rewrite E. exists c. split; [assumption | lia].
    + rewrite gui_search_db by congruence. rewrite main_search_db.
      apply main_matches_up. assumption.
  - exists c. split; [|lia]. destruct db as [t|]; [|discriminate].
    unfold add_resource, insert.
    destruct (negb (encodable (strip kl) && encodable (strip ul))); [assumption|].
    destruct (has_keyword (strip kl) t); [assumption|].
    apply usage_count_snoc. assumption.
  - exists c. split; [|lia]. destruct db as [t|]; [|discriminate].
    unfold tag_resource, update_tag_where.
    destruct (encodable (strip gl) && encodable (strip kl)); [|assumption].
    simpl fst. rewrite usage_count_retag. assumption.
Qed.

(** X13. Through any run of steps at the prompt of [main] that are
    searches, [add] or [tag], the count of a keyword never goes down and
    the keyword stays in the table; so it is through any run of searches
    in the form.  (With [delete] in the run it can go down: a keyword
    deleted and added again starts from 0.) *)
Theorem counts_never_go_down (db : Db) (k : str) (c : Z) :
  usage_count db k = Some c ->
  (forall ops, forallb keeps_records ops = true ->
     exists c', usage_count (run db ops) k = Some c' /\ c <= c')
  /\ (forall entries,
        exists c', usage_count (gui_searches db entries) k = Some c' /\ c <= c').
Proof.
  intros H. split.
  - intros ops. revert db c H.
    induction ops as [|o ops IH]; intros db c H Hops; simpl.
    + exists c. split; [assumption | lia].
    + simpl in Hops. apply andb_true_iff in Hops. destruct Hops as [Ho Hops].
      assert (Hd : is_delete o = false) by (destruct o; simpl in *; congruence).
      destruct (step_up db o k c Hd H) as [c1 [H1 L1]].
      destruct (IH (step db o) c1 H1 Hops) as [c' [H' L']].
      exists c'. split; [assumption | lia].
  - intros entries. revert db c H. unfold gui_searches.
    induction entries as [|e entries IH]; intros db c H; simpl.
    + exists c. split; [assumption | lia].
    + destruct (step_up db (OpGuiSearch e) k c eq_refl H) as [c1 [H1 L1]].
      simpl in H1.
      destruct (IH (fst (gui_search db e)) c1 H1) as [c' [H' L']].
      exists c'. split; [assumption | lia].
Qed.

Lemma counts_never_go_down_witness :
  exists c',
    usage_count (run (Some (map fresh_row ranking_seed))
                     [OpSearch (lit "lms"); OpTag (lit "LMS") (lit "수업");
                      OpSearch (lit "l"); OpAdd (lit "식당") (lit "https://d")])
                (lit "LMS") = Some c'
    /\ 0 <= c'.
Proof.
  apply (proj1 (counts_never_go_down (Some (map fresh_row ranking_seed))
                                     (lit "LMS") 0 eq_refl)).
  reflexivity.
Defined.

(** A keyword deleted and added again starts from 0. *)
Lemma delete_and_add_resets_the_count :
  usage_count (run (Some (map fresh_row ranking_seed)) [OpSearch (lit "lms")])
              (lit "LMS") = Some 1
  /\ usage_count (run (Some (map fresh_row ranking_seed))
                      [OpSearch (lit "lms"); OpDelete (lit "LMS");
                       OpAdd (lit "LMS") (lit "https://lms.cbnu.ac.kr/")])
                 (lit "LMS") = Some 0.
Proof. split; vm_compute; reflexivity. Qed.

(* ------------------------------------------------------------------ *)
(** * The table over a session *)
(* ------------------------------------------------------------------ *)

Lemma step_wf (db : Db) (o : Op) : wf db -> wf (step db o).
Proof.
  intros H. destruct (session_wf db H) as [H1 [H2 [H3 [H4 H5]]]].
  destruct o; simpl; auto.
Qed.

(* ------------------------------------------------------------------ *)
(** * The counts that a session reaches *)
(* ------------------------------------------------------------------ *)

Lemma add_one_le (c : Z) : add_one c <= c + 1.
Proof.
  unfold add_one. destruct ((- 2 ^ 63 <=? c) && (c <? 2 ^ 63)); lia.
Qed.

Lemma usage_count_In (t : Table) (r : Row) :
  NoDup (map keyword t) -> In r t ->
  usage_count (Some t) (keyword r) = Some (count r).
Proof.
  simpl. induction t as [|x t IH]; intros Hnd Hin; [destruct Hin|].
  simpl in Hnd. inversion Hnd as [|? ? Hn Hd]; subst. simpl.
  destruct Hin as [->|Hin].
  - rewrite str_eqb_refl. reflexivity.
  - destruct (str_eqb (keyword x) (keyword r)) eqn:E.
    + apply str_eqb_eq in E. exfalso. apply Hn. rewrite E.
      apply in_map. assumption.
    + apply IH; assumption.
Qed.

Lemma counts_within_le (n m : Z) (db : Db) :
  n <= m -> counts_within n db -> counts_within m db.
Proof.
  intros L. destruct db as [t|]; [|auto]. simpl.
  apply Forall_impl. intros r H. lia.
Qed.

Lemma main_search_counts_within (db : Db) (q : str) (n : Z) :
  wf db -> counts_within n db ->
  counts_within (n + 1) (fst (main_search db q)).
Proof.
  intros W H. pose proof (proj1 (session_wf db W) q) as W'.
  rewrite main_search_db in *.
  destruct db as [t|]; [|rewrite search_resources_no_table; exact I].
  destruct W as [Hnd Hok].
  destruct (search_resources_rows t q) as [keep Hm].
  destruct (main_matches_counts (fst (search_resources (Some t) q)) t)
    as [t' [Ht' Hc]].
  - intros p Hp. rewrite Hm in Hp. apply in_map_iff in Hp.
    destruct Hp as [r [<- Hr]]. apply filter_In in Hr. simpl.
    rewrite Forall_forall in Hok. apply (Hok r); tauto.
  - rewrite Hm, map_map. simpl. apply filter_keywords_NoDup; assumption.
  - rewrite Ht' in *. destruct W' as [Hnd' _]. simpl in H |- *.
    apply Forall_forall. intros r' Hr'.
    pose proof (usage_count_In t' r' Hnd' Hr') as U. rewrite Hc in U.
    destruct (usage_count (Some t) (keyword r')) as [c|] eqn:E; [|discriminate].
    apply usage_count_row in E. destruct E as [r [Hr [_ Ec]]].
    rewrite Forall_forall in H. specialize (H r Hr). rewrite Ec in H.
    simpl in U. injection U as U.
    pose proof (add_one_up c). pose proof (add_one_le c).
    destruct (existsb _ _); lia.
Qed.

(** A step moves every count by one at most, and a new record starts
    from 0. *)
Lemma step_counts_within (db : Db) (o : Op) (n : Z) :
  0 <= n -> wf db -> counts_within n db -> counts_within (n + 1) (step db o).
Proof.
  intros Hn W H. destruct o as [cmd|entry|kl ul|kl|kl gl]; simpl.
  - apply main_search_counts_within; assumption.
  - destruct (strip entry) as [|x s] eqn:E.
    + unfold gui_search. rewrite E. simpl.
      apply (counts_within_le n); [lia | assumption].
    + rewrite gui_search_db by congruence.
      apply main_search_counts_within; assumption.
  - apply (counts_within_le n); [lia|].
    destruct db as [t|]; [|exact I].
    unfold add_resource, insert.
    destruct (negb (encodable (strip kl) && encodable (strip ul))); [assumption|].
    destruct (has_keyword (strip kl) t); [assumption|].
    simpl. apply Forall_app. split; [assumption|].
    constructor; [simpl; lia | constructor].
  - apply (counts_within_le n); [lia|].
    destruct db as [t|]; [|exact I].
    unfold delete_resource, delete_where.
    destruct (encodable (strip kl)); [|assumption].
    simpl in H |- *. rewrite Forall_forall in *.
    intros r Hr. apply filter_In in Hr. apply H. tauto.
  - apply (counts_within_le n); [lia|].
    destruct db as [t|]; [|exact I].
    unfold tag_resource, update_tag_where.
    destruct (encodable (strip gl) && encodable (strip kl)); [|assumption].
    simpl in H |- *. rewrite Forall_forall in *.
    intros r Hr. apply in_map_iff in Hr. destruct Hr as [x [<- Hx]].
    specialize (H x Hx). destruct (str_eqb (keyword x) (strip kl)); assumption.
Qed.

Lemma run_counts_within (ops : list Op) :
  forall (db : Db) (n : Z),
    0 <= n -> wf db -> counts_within n db ->
    wf (run db ops)
    /\ counts_within (n + Z.of_nat (length ops)) (run db ops).
Proof.
  induction ops as [|o ops IH]; intros db n Hn W H.
  - split; [assumption|]. simpl. apply (counts_within_le n); [lia | assumption].
  - change (run db (o :: ops)) with (run (step db o) ops).
    destruct (IH (step db o) (n + 1)) as [W' H'];
      [lia | apply step_wf; assumption
       | apply step_counts_within; assumption |].
    split; [assumption|].
    apply (counts_within_le (n + 1 + Z.of_nat (length ops))); [|assumption].
    simpl length. lia.
Qed.

(** From the table that [init_db] leaves, a session of fewer than 2^63
    steps (searches, at the prompt or in the form, [add], [delete],
    [tag]) only reaches tables that the engine can hold, with counts that
    are INTEGERs. *)
Lemma session_counts_are_integers
      (seed : list (str * str)) (db0 : Db) (ops : list Op) :
  seed_ok seed ->
  Z.of_nat (length ops) < 2 ^ 63 ->
  exists db,
    init_db seed db0 = inr db
    /\ wf (run db ops)
    /\ integer_counts (run db ops).
Proof.
  intros Hs Hl. exists (Some (map fresh_row (dedup_first seed))).
  split; [apply init_db_table; assumption|].
  destruct (run_counts_within ops (Some (map fresh_row (dedup_first seed))) 0)
    as [W H].
  - lia.
  - apply (init_db_wf seed db0); [apply init_db_table|]; assumption.
  - simpl. apply Forall_forall. intros r Hr. apply in_map_iff in Hr.
    destruct Hr as [p [<- _]]. simpl. lia.
  - split; [assumption|].
    destruct (run (Some (map fresh_row (dedup_first seed))) ops) as [t|];
      [|exact I].
    simpl in H |- *. revert H. apply Forall_impl. intros r Hr. lia.
Qed.

Lemma main_matches_some (matches : list (str * str)) :
  forall t, exists t', fst (main_matches (Some t) matches) = Some t'.
Proof.
  induction matches as [|[kw u] rest IH]; intros t; simpl; [eauto|].
  pose proof (update_count_db (Some t) kw) as E.
  destruct (update_count (Some t) kw) as [db1 ev1]. simpl in E. subst db1.
  destruct (encodable kw).
  - destruct (IH (bump_where kw t)) as [t' Ht'].
    destruct (main_matches (Some (bump_where kw t)) rest). simpl in *. eauto.
  - destruct (IH t) as [t' Ht'].
    destruct (main_matches (Some t) rest). simpl in *. eauto.
Qed.

Lemma step_some (t : Table) (o : Op) : exists t', step (Some t) o = Some t'.
Proof.
  destruct o as [cmd|entry|kl ul|kl|kl gl]; simpl.
  - rewrite main_search_db. apply main_matches_some.
  - destruct (strip entry) as [|x s] eqn:E.
    + unfold gui_search. rewrite E. eexists; reflexivity.
    + rewrite gui_search_db by congruence. rewrite main_search_db.
      apply main_matches_some.
  - unfold add_resource, insert.
    destruct (negb (encodable (strip kl) && encodable (strip ul)));
      [eexists; reflexivity|].
    destruct (has_keyword (strip kl) t); eexists; reflexivity.
  - unfold delete_resource, delete_where.
    destruct (encodable (strip kl)); eexists; reflexivity.
  - unfold tag_resource, update_tag_where.
    destruct (encodable (strip gl) && encodable (strip kl)); eexists; reflexivity.
Qed.

(** X14. After [init_db], whatever the session does next (searches at the
    prompt or in the form, [add], [delete], [tag], in any number and
    order), the table exists and no two of its records carry the same
    keyword. *)
Theorem keywords_stay_unique (seed : list (str * str)) (db : Db) (ops : list Op) :
  seed_ok seed ->
  exists db0 t,
    init_db seed db = inr db0
    /\ run db0 ops = Some t
    /\ NoDup (map keyword t).
Proof.
  intros Hs. exists (Some (map fresh_row (dedup_first seed))).
  assert (W : wf (Some (map fresh_row (dedup_first seed)))).
  { apply (init_db_wf seed db); [apply init_db_table|]; assumption. }
  assert (G : forall t0, wf (Some t0) ->
                         exists t, run (Some t0) ops = Some t /\ NoDup (map keyword t)).
  { induction ops as [|o ops IH]; intros t0 W0; simpl.
    - exists t0. split; [reflexivity | apply W0].
    - destruct (step_some t0 o) as [t1 E]. rewrite E. apply IH.
      rewrite <- E. apply step_wf. exact W0. }
  destruct (G _ W) as [t [H1 H2]]. exists t.
  split; [apply init_db_table; assumption|]. split; assumption.
Qed.

Lemma keywords_stay_unique_witness :
  exists db0 t,
    init_db ranking_seed None = inr db0
    /\ run db0 [OpAdd (lit "LMS") (lit "https://x"); OpSearch (lit "lms");
                OpDelete (lit "도서관"); OpAdd (lit "도서관") (lit "https://y");
                OpTag (lit "기숙사") (lit "주거")] = Some t
    /\ NoDup (map keyword t).
Proof.
  apply (keywords_stay_unique ranking_seed None).
  repeat constructor.
Defined.

(* ------------------------------------------------------------------ *)
(** * Suggestions and the order of the table *)
(* ------------------------------------------------------------------ *)

Lemma place_asc_perm (k : str) (l : list str) : Permutation (k :: l) (place_asc k l).
Proof.
  induction l as [|x l IH]; simpl; [reflexivity|].
  destruct (str_ltb k x); [reflexivity|].
  rewrite perm_swap. apply perm_skip. exact IH.
Qed.

Lemma index_order_perm (ks : list str) : Permutation ks (index_order ks).
Proof.
  induction ks as [|k ks IH]; simpl; [reflexivity|].
  rewrite <- place_asc_perm. apply perm_skip. exact IH.
Qed.

(** X15. The suggestions depend on which keywords the table holds and on
    nothing else: two tables with the same keywords, in whatever order
    and with whatever locators, counts and tags, get the same suggestions
    for a query. *)
Theorem suggestions_ignore_the_order (t t' : Table) (q : str) :
  Permutation (map keyword t) (map keyword t') ->
  suggest_keywords (Some t) q = suggest_keywords (Some t') q.
Proof.
  intros P. unfold suggest_keywords, select_keywords. f_equal.
  apply get_close_matches_perm.
  rewrite <- !index_order_perm. exact P.
Qed.

Lemma suggestions_ignore_the_order_witness :
  suggest_keywords (Some [mkRow (lit "수강신청") (lit "https://a") 0 [];
                          mkRow (lit "취업지원") (lit "https://b") 0 []])
                   (lit "수강신업지원")
  = suggest_keywords (Some [mkRow (lit "취업지원") (lit "https://c") 4 (lit "일");
                            mkRow (lit "수강신청") (lit "https://d") 2 []])
                     (lit "수강신업지원").
Proof.
  apply (suggestions_ignore_the_order
           [mkRow (lit "수강신청") (lit "https://a") 0 [];
            mkRow (lit "취업지원") (lit "https://b") 0 []]
           [mkRow (lit "취업지원") (lit "https://c") 4 (lit "일");
            mkRow (lit "수강신청") (lit "https://d") 2 []]).
  apply perm_swap.
Defined.

(* ------------------------------------------------------------------ *)
(** * Logging and showing the history *)
(* ------------------------------------------------------------------ *)

Lemma lstrip_app (q w : str) :
  lstrip (q ++ w) = match lstrip q with [] => lstrip w | _ :: _ => lstrip q ++ w end.
Proof.
  induction q as [|c q IH]; simpl; [destruct (lstrip w); reflexivity|].
  destruct (isspace c); [exact IH | reflexivity].
Qed.

(** The LF that ends a line goes away with [strip]. *)
Lemma strip_line (q : str) : strip (q ++ [10]) = strip q.
Proof.
  unfold strip, rstrip. rewrite lstrip_app.
  destruct (lstrip q) as [|c l] eqn:E; [reflexivity|].
  rewrite rev_app_distr. reflexivity.
Qed.

Lemma universal_newlines_none (s : str) :
  forallb (fun c => negb (c =? 13)) s = true -> universal_newlines s = s.
Proof.
  induction s as [|c s IH]; simpl; [reflexivity|].
  rewrite andb_true_iff, negb_true_iff. intros [-> H]. f_equal. auto.
Qed.

Lemma split_lines_line (q rest : str) :
  forallb (fun c => negb (c =? 10)) q = true ->
  split_lines (q ++ 10 :: rest) = (q ++ [10]) :: split_lines rest.
Proof.
  induction q as [|c q IH]; simpl; [reflexivity|].
  rewrite andb_true_iff, negb_true_iff. intros [-> H]. rewrite (IH H). reflexivity.
Qed.

Lemma one_line_parts (q : str) :
  one_line q = true ->
  encodable q = true
  /\ forallb (fun c => negb (c =? 10)) q = true
  /\ forallb (fun c => negb (c =? 13)) q = true.
Proof.
  unfold one_line. rewrite andb_true_iff. intros [He H]. split; [assumption|].
  induction q as [|c q IH]; simpl; [auto|].
  simpl in H, He. rewrite !andb_true_iff in H. destruct H as [[H1 H2] H3].
  apply andb_true_iff in He. destruct He as [_ He].
  destruct (IH He H3) as [I1 I2]. rewrite H1, H2, I1, I2. auto.
Qed.

Lemma readlines_lines (qs : list str) :
  forallb one_line qs = true ->
  readlines (flat_map (fun q => q ++ [10]) qs) = map (fun q => q ++ [10]) qs.
Proof.
  intros H. unfold readlines.
  assert (N : forallb (fun c => negb (c =? 13))
                      (flat_map (fun q => q ++ [10]) qs) = true).
  { induction qs as [|q qs IH]; simpl; [reflexivity|].
    simpl in H. apply andb_true_iff in H. destruct H as [Hq H].
    destruct (one_line_parts q Hq) as [_ [_ H13]].
    rewrite !forallb_app, H13, (IH H). reflexivity. }
  rewrite (universal_newlines_none _ N). clear N.
  induction qs as [|q qs IH]; simpl; [reflexivity|].
  simpl in H. apply andb_true_iff in H. destruct H as [Hq H].
  destruct (one_line_parts q Hq) as [_ [H10 _]].
  rewrite <- app_assoc. simpl. rewrite (split_lines_line q _ H10), (IH H).
  reflexivity.
Qed.

Lemma log_all_text (qs : list str) (s : str) :
  forallb one_line qs = true ->
  log_all (Some s) qs = Some (s ++ flat_map (fun q => q ++ [10]) qs).
Proof.
  revert s. induction qs as [|q qs IH]; intros s H; simpl.
  - rewrite app_nil_r. reflexivity.
  - simpl in H. apply andb_true_iff in H. destruct H as [Hq H].
    destruct (one_line_parts q Hq) as [He _].
    unfold log_search. rewrite He. simpl. rewrite (IH _ H), <- !app_assoc.
    reflexivity.
Qed.

Lemma last_n_map {A B} (f : A -> B) (n : nat) (l : list A) :
  last_n n (map f l) = map f (last_n n l).
Proof. unfold last_n. rewrite length_map, skipn_map. reflexivity. Qed.

(** X16. [show_history] after [log_search]: once the queries of a run have
    been logged to a file that did not exist, it prints the header and
    then the last ten of them, oldest first, each as [strip] leaves it;
    with no query logged there is no file and it prints that there is no
    history.  (The queries are texts that the encoder accepts, without an
    end of line, as the lines read by [input] are.) *)
Theorem history_shows_the_last_ten (qs : list str) :
  forallb one_line qs = true ->
  show_history (log_all None qs)
  = match qs with
    | [] => [HistoryNone]
    | _ :: _ => HistoryHeader :: map (fun q => HistoryEntry (strip q)) (last_n 10 qs)
    end
  /\ (length (show_history (log_all None qs)) <= 11)%nat.
Proof.
  intros H.
  assert (E : show_history (log_all None qs)
              = match qs with
                | [] => [HistoryNone]
                | _ :: _ => HistoryHeader
                              :: map (fun q => HistoryEntry (strip q)) (last_n 10 qs)
                end).
  { destruct qs as [|q qs]; [reflexivity|].
    assert (L : log_all None (q :: qs)
                = Some (flat_map (fun q => q ++ [10]) (q :: qs))).
    { pose proof (log_all_text (q :: qs) [] H) as T. simpl in T |- *.
      unfold log_search in T |- *. simpl in T |- *. exact T. }
    rewrite L. unfold show_history. rewrite (readlines_lines _ H).
    rewrite last_n_map, map_map. f_equal. apply map_ext. intros x.
    rewrite strip_line. reflexivity. }
  split; [exact E|]. rewrite E. destruct qs as [|q qs]; [simpl; lia|].
  cbn [length]. rewrite length_map. unfold last_n. rewrite length_skipn. lia.
Qed.

Lemma history_shows_the_last_ten_witness :
  show_history (log_all None [lit "lms"; lit ""; lit "도서관"])
  = [HistoryHeader; HistoryEntry (lit "lms"); HistoryEntry (lit "");
     HistoryEntry (lit "도서관")].
Proof.
  rewrite (proj1 (history_shows_the_last_ten [lit "lms"; lit ""; lit "도서관"]
                                             eq_refl)).
  vm_compute. reflexivity.
Defined.

(* ------------------------------------------------------------------ *)
(** * The matches of any query *)
(* ------------------------------------------------------------------ *)

(** X17. Whatever the query, wildcards and errors included, the matches
    are pairs of records of the table, in the order of the table, and no
    keyword comes twice among them. *)
Theorem matches_are_records (db : Db) (q : str) :
  wf db ->
  NoDup (map fst (fst (search_resources db q)))
  /\ (forall k u, In (k, u) (fst (search_resources db q)) ->
        exists t r, db = Some t /\ In r t /\ keyword r = k /\ url r = u)
  /\ (forall t, db = Some t ->
        exists keep, fst (search_resources db q)
                     = map (fun r => (keyword r, url r)) (filter keep t)).
Proof.
  intros W. split; [|split].
  - destruct db as [t|]; [|constructor].
    destruct (search_resources_rows t q) as [keep E]. rewrite E, map_map. simpl.
    apply filter_keywords_NoDup. apply W.
  - intros k u. apply search_resources_sub.
  - intros t ->. apply search_resources_rows.
Qed.

Lemma matches_are_records_witness :
  NoDup (map fst (fst (search_resources (Some (map fresh_row ranking_seed))
                                        (lit "_%"))))
  /\ fst (search_resources (Some (map fresh_row ranking_seed)) (lit "_%"))
     = ranking_seed.
Proof.
  split.
  - exact (proj1 (matches_are_records (Some (map fresh_row ranking_seed))
                                      (lit "_%") ranking_table_wf)).
  - vm_compute. reflexivity.
Defined.

Lemma substring_trans (a b c : str) : substring a b -> substring b c -> substring a c.
Proof.
  intros [p1 [s1 ->]] [p2 [s2 ->]]. exists (p2 ++ p1), (s1 ++ s2).
  rewrite <- !app_assoc. reflexivity.
Qed.

Lemma substring_fold (a b : str) :
  substring a b -> substring (like_fold a) (like_fold b).
Proof.
  intros [p [s ->]]. exists (like_fold p), (like_fold s).
  unfold like_fold. rewrite !map_app. reflexivity.
Qed.

Lemma utf8_len_app (a b : str) : utf8_len (a ++ b) = utf8_len a + utf8_len b.
Proof.
  induction a as [|c a IH]; simpl; [reflexivity|]. rewrite IH. lia.
Qed.

Lemma utf8_len_nonneg (a : str) : 0 <= utf8_len a.
Proof.
  induction a as [|c a IH]; simpl; [lia|].
  unfold utf8_width. split_tests; lia.
Qed.

Lemma plain_query_sub (q' q : str) :
  substring q' q -> plain_query q -> plain_query q'.
Proof.
  intros [p [s ->]] [Hl [He Hn]].
  rewrite !forallb_app in Hl. unfold encodable in *. rewrite !forallb_app in He.
  rewrite !andb_true_iff in Hl, He.
  rewrite !utf8_len_app in Hn.
  pose proof (utf8_len_nonneg p). pose proof (utf8_len_nonneg s).
  repeat split; try tauto. lia.
Qed.

(** X18. Shortening a query never loses a match: when the query is made of
    literal characters, every record that it matches is matched by any
    run of consecutive characters taken from it. *)
Theorem shorter_query_matches_more (t : Table) (q q' : str) :
  plain_query q -> substring q' q ->
  forall k u, In (k, u) (fst (search_resources (Some t) q)) ->
              In (k, u) (fst (search_resources (Some t) q')).
Proof.
  intros Hq Hs k u.
  pose proof (plain_query_sub q' q Hs Hq) as Hq'.
  rewrite (search_resources_plain t q Hq), (search_resources_plain t q' Hq').
  simpl. unfold like_rows. rewrite !in_map_iff.
  intros [r [E Hr]]. exists r. split; [assumption|].
  apply filter_In in Hr. apply filter_In. split; [tauto|].
  destruct Hr as [_ Hm]. destruct Hq as [Hl _]. destruct Hq' as [Hl' _].
  rewrite (cstr_literal q Hl) in Hm. rewrite (cstr_literal q' Hl').
  apply pattern_of_literal; [assumption|].
  apply (pattern_of_literal q _ Hl) in Hm.
  apply (substring_trans _ (like_fold q)); [apply substring_fold|]; assumption.
Qed.

Lemma shorter_query_matches_more_witness :
  plain_query (lit "lms") /\ substring (lit "m") (lit "lms")
  /\ In (lit "LMS", lit "https://lms.cbnu.ac.kr/")
        (fst (search_resources (Some (map fresh_row ranking_seed)) (lit "m"))).
Proof.
  assert (S : substring (lit "m") (lit "lms")).
  { exists (lit "l"), (lit "s"). vm_compute. reflexivity. }
  split; [exact lms_is_plain|]. split; [exact S|].
  apply (shorter_query_matches_more (map fresh_row ranking_seed)
                                    (lit "lms") (lit "m") lms_is_plain S).
  vm_compute. left. reflexivity.
Defined.

(* ------------------------------------------------------------------ *)
(** * Counting searches *)
(* ------------------------------------------------------------------ *)

Lemma scan_like_bump (P kw : str) (t : Table) :
  scan_like P (bump_where kw t) = scan_like P t.
Proof.
  induction t as [|r t IH]; simpl; [reflexivity|].
  rewrite IH. destruct (str_eqb (keyword r) kw); reflexivity.
Qed.

Lemma search_resources_after_update (db : Db) (kw q : str) :
  search_resources (fst (update_count db kw)) q = search_resources db q.
Proof.
  rewrite update_count_db. destruct db as [t|]; [|reflexivity].
  destruct (encodable kw); [|reflexivity].
  unfold search_resources, select_like. rewrite scan_like_bump. reflexivity.
Qed.

Lemma search_resources_after_matches (matches : list (str * str)) (q : str) :
  forall db, search_resources (fst (main_matches db matches)) q
             = search_resources db q.
Proof.
  induction matches as [|[kw u] rest IH]; intros db; [reflexivity|].
  simpl. pose proof (search_resources_after_update db kw q) as E.
  destruct (update_count db kw) as [db1 ev1]. simpl in E.
  specialize (IH db1). destruct (main_matches db1 rest) as [db2 ev2].
  simpl in *. congruence.
Qed.

(** A search changes counts only: the next search finds what it would
    have found before. *)
Lemma search_resources_after_search (db : Db) (q q' : str) :
  search_resources (fst (main_search db q)) q' = search_resources db q'.
Proof. rewrite main_search_db. apply search_resources_after_matches. Qed.




(** From 2^63 - 2, three searches that match leave the count at 2^63. *)
Lemma count_stops_at_the_real :
  usage_count
    (main_searches (Some [mkRow (lit "LMS") (lit "https://lms.cbnu.ac.kr/")
                                (2 ^ 63 - 2) []])
                   [lit "lms"; lit "lms"; lit "lms"])
    (lit "LMS")
  = Some (2 ^ 63).
Proof. vm_compute. reflexivity. Qed.

(* ------------------------------------------------------------------ *)
(** * The suggestions of a table *)
(* ------------------------------------------------------------------ *)

Lemma firstn_NoDup {A} (n : nat) (l : list A) : NoDup l -> NoDup (firstn n l).
Proof.
  intros H. revert n. induction H as [|x l Hx Hl IH]; intros [|n]; simpl;
    try constructor; auto.
  intros Hin. apply Hx. apply (firstn_In_of n). exact Hin.
Qed.

Lemma filter_NoDup {A} (f : A -> bool) (l : list A) : NoDup l -> NoDup (filter f l).
Proof.
  induction 1 as [|x l Hx Hl IH]; simpl; [constructor|].
  destruct (f x); [constructor|]; auto.
  intros Hin. apply Hx. apply filter_In in Hin. tauto.
Qed.

Lemma close_candidates_keys (q : str) (universe : list str) (cutoff : Q) :
  exists keep, map snd (close_candidates q universe cutoff) = filter keep universe.
Proof.
  rewrite close_candidates_map. eexists. rewrite map_map. simpl.
  rewrite map_id. reflexivity.
Qed.

Lemma get_close_matches_NoDup (q : str) (universe : list str) (n : nat) (cutoff : Q) :
  NoDup universe -> NoDup (get_close_matches q universe n cutoff).
Proof.
  intros H. unfold get_close_matches, nlargest. rewrite <- firstn_map.
  apply firstn_NoDup.
  apply (Permutation_NoDup
           (Permutation_map snd (sorted_reverse_perm
                                   (close_candidates q universe cutoff)))).
  destruct (close_candidates_keys q universe cutoff) as [keep E]. rewrite E.
  apply filter_NoDup. exact H.
Qed.

(** X20. What [suggest_keywords] returns: keywords of the table, each with
    a similarity of 6/10 or more to the query, no keyword twice, three at
    most; and nothing when the file has no table. *)
Theorem suggestions_are_stored_keywords (db : Db) (q : str) :
  wf db ->
  (forall x, In x (fst (suggest_keywords db q)) ->
     exists t, db = Some t /\ In x (map keyword t) /\ (6 # 10 <= ratio x q)%Q)
  /\ NoDup (fst (suggest_keywords db q))
  /\ (length (fst (suggest_keywords db q)) <= 3)%nat
  /\ (db = None -> suggest_keywords db q = ([], [Print KeysError])).
Proof.
  intros W. unfold suggest_keywords, select_keywords.
  destruct db as [t|]; simpl fst.
  - split; [|split; [|split]].
    + intros x Hx. unfold get_close_matches in Hx. apply in_map_iff in Hx.
      destruct Hx as [e [<- He]].
      apply nlargest_In, close_candidates_In in He. destruct He as [H1 [_ H3]].
      exists t. split; [reflexivity|]. split; [|assumption].
      apply (Permutation_in _ (Permutation_sym (index_order_perm (map keyword t)))).
      assumption.
    + apply get_close_matches_NoDup.
      apply (Permutation_NoDup (index_order_perm (map keyword t))). apply W.
    + unfold get_close_matches, nlargest. rewrite length_map.
      apply firstn_le_length.
    + discriminate.
  - split; [intros x []|]. split; [constructor|]. split; [simpl; lia|].
    reflexivity.
Qed.

Lemma suggestions_are_stored_keywords_witness :
  NoDup (fst (suggest_keywords (Some (map fresh_row ranking_seed)) (lit "도서실")))
  /\ fst (suggest_keywords (Some (map fresh_row ranking_seed)) (lit "도서실"))
     = [lit "도서관"].
Proof.
  split.
  - exact (proj1 (proj2 (suggestions_are_stored_keywords
                           (Some (map fresh_row ranking_seed)) (lit "도서실")
                           ranking_table_wf))).
  - vm_compute. reflexivity.
Defined.

(* ------------------------------------------------------------------ *)
(** * Switching the language *)
(* ------------------------------------------------------------------ *)

Lemma dict_get_absent {V} (k : str) (d : list (str * V)) :
  ~ In k (map fst d) -> dict_get k d = None.
Proof.
  induction d as [|[k' v] d IH]; simpl; intros H; [reflexivity|].
  destruct (str_eqb k' k) eqn:E.
  - apply str_eqb_eq in E. tauto.
  - apply IH. tauto.
Qed.

Lemma dict_get_In {V} (k : str) (d : list (str * V)) (v : V) :
  dict_get k d = Some v -> In v (map snd d).
Proof.
  induction d as [|[k' v'] d IH]; simpl; [discriminate|].
  destruct (str_eqb k' k); [intros E; injection E; auto | auto].
Qed.

Lemma toggle_language_cases (LANG : str) :
  (LANG = lit "ko"
   /\ toggle_language LANG = (lit "en", lit "Welcome to CBNU Bot!"))
  \/ (LANG <> lit "ko"
      /\ toggle_language LANG = (lit "ko", lit "안녕히 가세요!")).
Proof.
  unfold toggle_language. destruct (str_eqb LANG (lit "ko")) eqn:E.
  - left. apply str_eqb_eq in E. split; [assumption|]. vm_compute. reflexivity.
  - right. apply str_eqb_neq in E. split; [assumption|]. vm_compute. reflexivity.
Qed.

(** X21. [toggle_language] switches between [ko] and [en]: whatever [LANG]
    was, it is one of the two afterwards; from [ko] or [en] two toggles
    give back the language; the line printed is the welcome in English
    when the switch is to English and the Korean goodbye when it is to
    Korean; and every message of the table has a text in the language
    reached, while a key outside the table, or another language, gets the
    empty text. *)
Theorem toggle_language_switches (LANG : str) :
  (fst (toggle_language LANG) = lit "en" \/ fst (toggle_language LANG) = lit "ko")
  /\ (LANG = lit "ko" \/ LANG = lit "en" ->
      fst (toggle_language (fst (toggle_language LANG))) = LANG)
  /\ snd (toggle_language LANG)
     = (if str_eqb LANG (lit "ko") then lit "Welcome to CBNU Bot!"
        else lit "안녕히 가세요!")
  /\ (forall key, In key (map fst messages) ->
                  get_msg (fst (toggle_language LANG)) key <> [])
  /\ (forall key, ~ In key (map fst messages) -> get_msg LANG key = [])
  /\ (forall key, LANG <> lit "ko" -> LANG <> lit "en" -> get_msg LANG key = []).
Proof.
  assert (Absent : forall L key, ~ In key (map fst messages) -> get_msg L key = []).
  { intros L key H. unfold get_msg. rewrite (dict_get_absent key messages H).
    reflexivity. }
  assert (Known : forall key, In key (map fst messages) ->
                              get_msg (lit "en") key <> []
                              /\ get_msg (lit "ko") key <> []).
  { intros key H. unfold messages in H. cbn [map fst] in H.
    repeat (destruct H as [H|H];
            [subst key; split; vm_compute; discriminate|]).
    destruct H. }
  assert (Other : forall key, LANG <> lit "ko" -> LANG <> lit "en" ->
                              get_msg LANG key = []).
  { intros key E N. unfold get_msg.
    destruct (dict_get key messages) as [m|] eqn:D; [|reflexivity].
    assert (M : dict_get LANG m = None); [|rewrite M; reflexivity].
    apply dict_get_In in D. apply dict_get_absent.
    unfold messages in D. cbn [map snd] in D.
    repeat (destruct D as [D|D];
            [subst m; cbn [map fst]; intros [X|[X|[]]]; congruence|]).
    destruct D. }
  destruct (toggle_language_cases LANG) as [[E T]|[E T]]; rewrite T; simpl fst;
    simpl snd.
  - split; [left; reflexivity|].
    split; [intros _; subst LANG; vm_compute; reflexivity|].
    split; [subst LANG; reflexivity|].
    split; [intros key H; apply (Known key H)|].
    split; [apply Absent | exact Other].
  - split; [right; reflexivity|].
    split; [intros [H|H]; [contradiction | subst LANG; vm_compute; reflexivity]|].
    split; [apply str_eqb_neq in E; rewrite E; reflexivity|].
    split; [intros key H; apply (Known key H)|].
    split; [apply Absent | exact Other].
Qed.

(* ------------------------------------------------------------------ *)
(** * What a search depends on *)
(* ------------------------------------------------------------------ *)

Lemma scan_like_retag (P kw tg : str) (t : Table) :
  scan_like P (map (fun r => if str_eqb (keyword r) kw then retag tg r else r) t)
  = scan_like P t.
Proof.
  induction t as [|r t IH]; simpl; [reflexivity|].
  rewrite IH. destruct (str_eqb (keyword r) kw); reflexivity.
Qed.

(** X22. Tags and counts have no part in a search: after [tag_resource],
    and after a search and the counts it changed, a query gets the
    matches, and the error if any, that it got before. *)
Theorem search_ignores_tags_and_counts (db : Db) (q kw_line tag_line cmd : str) :
  search_resources (fst (tag_resource db kw_line tag_line)) q = search_resources db q
  /\ search_resources (fst (main_search db cmd)) q = search_resources db q
  /\ search_resources (fst (gui_search db cmd)) q = search_resources db q.
Proof.
  split; [|split].
  - unfold tag_resource, update_tag_where. destruct db as [t|]; [|reflexivity].
    destruct (encodable (strip tag_line) && encodable (strip kw_line));
      [|reflexivity].
    simpl fst. unfold search_resources, select_like.
    rewrite scan_like_retag. reflexivity.
  - apply search_resources_after_search.
  - destruct (strip cmd) as [|c s] eqn:E.
    + unfold gui_search. rewrite E. reflexivity.
    + rewrite gui_search_db by congruence. apply search_resources_after_search.
Qed.
